(** * Spend aggregation pipeline of [dash.py]

    A shallow embedding of the data transformations of the dashboard
    script: the boolean-mask filter, the grouped sums, the [nlargest]
    selections, the pivot table, the KPI and market-concentration stages
    and the CSV export.

    Conventions of the embedding.
    - A data frame is a [list record]; the three label columns hold
      [string]s (no missing labels) and the invoice value is a rational
      ([Q]): sums and products are the exact ones, and results are
      compared with [==] ([Qeq]).
    - Results of a division are values of [fval], which adds the two
      infinities and NaN to [Q]; a finite result is the exact quotient,
      of which the float64 the code holds is the rounding.  A statement
      about such a number is made up to a relative tolerance, or is one
      that rounding keeps (an order, a sign, an exact value such as
      100 = x / x * 100); [hhi64] evaluates the index in float64 where
      the difference is to be shown.
    - pandas calls are modelled by their documented contract
      ([groupby(...).sum()] sorts group keys and sums per group,
      [unique()] keeps the order of first appearance, [nlargest] uses
      [keep='first'], [pivot_table] fills absent combinations with
      [fill_value]). *)

From Stdlib Require Import List Bool Arith Lia ZArith QArith Lqa.
From Stdlib Require Import Strings.String Strings.Ascii.
From Stdlib Require Import Numbers.DecimalString.
From Stdlib Require Import Floats.
From Stdlib Require Import Sorting.Permutation Sorting.Sorted.
From Stdlib Require Import Setoid Morphisms.
Import ListNotations.

Local Open Scope Q_scope.

(** ** Data model *)

(** One row of the spreadsheet, with the four columns named on load
    (dash.py:16). *)
Record record : Type := mkRecord {
  category : string;   (* 'Expense Type (Category)' *)
  area     : string;   (* 'Expense Area (User/BU)'  *)
  supplier : string;   (* 'Supplier'                *)
  value    : Q         (* 'Invoice Value (GBP)'     *)
}.

Definition dataframe := list record.

(** A pandas [Series] with a label index: label/value pairs in index
    order. *)
Definition series (K : Type) := list (K * Q).

(** ** Results of floating-point division

    [x / 0] does not raise in pandas: it yields [nan] (for [0/0]) or a
    signed infinity.  For a non-zero divisor [fdiv] gives the exact
    quotient, which the float64 division of the code rounds. *)
Inductive fval : Type :=
| Fin (q : Q)
| PInf
| NInf
| NaN.

Definition fdiv (a b : Q) : fval :=
  if Qeq_bool b 0 then
    (if Qeq_bool a 0 then NaN
     else if Qle_bool 0 a then PInf else NInf)
  else Fin (a / b).

Definition fmul (x : fval) (c : Q) : fval :=
  match x with
  | Fin q => Fin (q * c)
  | PInf => if Qeq_bool c 0 then NaN else if Qle_bool 0 c then PInf else NInf
  | NInf => if Qeq_bool c 0 then NaN else if Qle_bool 0 c then NInf else PInf
  | NaN => NaN
  end.

(** [x ** 2] *)
Definition fsquare (x : fval) : fval :=
  match x with
  | Fin q => Fin (q ^ 2)
  | PInf | NInf => PInf
  | NaN => NaN
  end.

Definition fadd (x y : fval) : fval :=
  match x, y with
  | NaN, _ | _, NaN => NaN
  | Fin a, Fin b => Fin (a + b)
  | PInf, NInf | NInf, PInf => NaN
  | PInf, _ | _, PInf => PInf
  | NInf, _ | _, NInf => NInf
  end.

Definition is_nan (x : fval) : bool :=
  match x with NaN => true | _ => false end.

(** [Series.sum()] on floats: [skipna=True] drops the NaN entries, the
    rest is added up from 0. *)
Definition fsum (l : list fval) : fval :=
  fold_left fadd (filter (fun x => negb (is_nan x)) l) (Fin 0).

(** [x < c] for a float [x] and a literal [c]: false on NaN. *)
Definition flt (x : fval) (c : Q) : bool :=
  match x with
  | Fin q => negb (Qle_bool c q)
  | NInf => true
  | PInf | NaN => false
  end.

(** ** Exact sums *)

Definition Qsum (l : list Q) : Q := fold_right Qplus 0 l.

(** A count as a number. *)
Definition Qnat (n : nat) : Q := inject_Z (Z.of_nat n).

Definition sq (t : Q) : Q := t * t.

Definition nonneg (l : list Q) : Prop := Forall (fun t => 0 <= t) l.

(** The number of entries of [l] equal to [g]. *)
Definition count_eq (g : Q) (l : list Q) : nat :=
  List.length (filter (fun t => Qeq_bool t g) l).

(** [frame['Invoice Value (GBP)'].sum()] *)
Definition total_spend (view : dataframe) : Q := Qsum (map value view).

(** ** Filtering (dash.py:122-125) *)

(** [Series.isin(values)] *)
Definition isin (s : string) (values : list string) : bool :=
  existsb (String.eqb s) values.

Definition filtered_df (df : dataframe)
    (selected_categories selected_areas : list string) : dataframe :=
  filter (fun r => isin (category r) selected_categories
                   && isin (area r) selected_areas) df.

(** ** Distinct labels and grouped sums *)

Section GroupBy.

Variable K : Type.
Variable Keqb : K -> K -> bool.
Variable Kleb : K -> K -> bool.

(** [Series.unique()]: distinct values in order of first appearance. *)
Fixpoint unique (l : list K) : list K :=
  match l with
  | [] => []
  | x :: l' => x :: filter (fun y => negb (Keqb x y)) (unique l')
  end.

(** Insertion into a list of labels kept in ascending order. *)
Fixpoint insert_label (k : K) (l : list K) : list K :=
  match l with
  | [] => [k]
  | k' :: l' => if Kleb k k' then k :: l else k' :: insert_label k l'
  end.

Definition sort_labels (l : list K) : list K :=
  fold_right insert_label [] l.

(** The group keys of [groupby(key)]: the distinct labels, sorted
    ([sort=True] is the default). *)
Definition group_keys (key : record -> K) (view : dataframe) : list K :=
  sort_labels (unique (map key view)).

(** The rows of one group, in frame order. *)
Definition group_rows (key : record -> K) (k : K) (view : dataframe)
  : dataframe :=
  filter (fun r => Keqb (key r) k) view.

(** [view.groupby(key)['Invoice Value (GBP)'].sum()] *)
Definition groupby_sum (key : record -> K) (view : dataframe) : series K :=
  map (fun k => (k, total_spend (group_rows key k view)))
      (group_keys key view).

(** Label lookup in a series. *)
Fixpoint series_get (k : K) (s : series K) : option Q :=
  match s with
  | [] => None
  | (k', v) :: s' => if Keqb k k' then Some v else series_get k s'
  end.

End GroupBy.

Arguments unique {K} Keqb l.
Arguments insert_label {K} Kleb k l.
Arguments sort_labels {K} Kleb l.
Arguments group_keys {K} Keqb Kleb key view.
Arguments group_rows {K} Keqb key k view.
Arguments groupby_sum {K} Keqb Kleb key view.
Arguments series_get {K} Keqb k s.

(** Grouping by one label column. *)
Definition groupby1 (key : record -> string) (view : dataframe)
  : series string :=
  groupby_sum String.eqb String.leb key view.

(** [Series.nunique()] *)
Definition nunique (key : record -> string) (view : dataframe) : nat :=
  List.length (unique String.eqb (map key view)).

(** ** Sorting by value and [nlargest] *)

Definition Qlt_bool (a b : Q) : bool := negb (Qle_bool b a).

Section SortValues.

Variable A : Type.
Variable val : A -> Q.

(** [goes_before ascending y x]: [y] must stay ahead of [x] whatever
    their original positions. *)
Definition goes_before (ascending : bool) (y x : A) : bool :=
  if ascending then Qlt_bool (val y) (val x) else Qlt_bool (val x) (val y).

(** [x] comes from an earlier position than everything in [l]: it is put
    ahead of its ties. *)
Fixpoint insert_value (ascending : bool) (x : A) (l : list A) : list A :=
  match l with
  | [] => [x]
  | y :: l' =>
      if goes_before ascending y x
      then y :: insert_value ascending x l'
      else x :: l
  end.

(** [sort_values(ascending=...)].  The default [kind='quicksort'] fixes no
    order among equal values; the model keeps them in their original
    order, which is also what [nlargest] with [keep='first'] documents.
    What is stated of [category_spend], [area_spend] and
    [transaction_details] holds for every order of the ties. *)
Definition sort_values (ascending : bool) (l : list A) : list A :=
  fold_right (insert_value ascending) [] l.

(** [nlargest(n)] with [keep='first']: descending by value, ties in order
    of appearance, cut to the first [n]. *)
Definition nlargest (n : nat) (l : list A) : list A :=
  firstn n (sort_values false l).

(** [x] is not below [y]: the order of a descending list. *)
Definition not_below (x y : A) : Prop := val y <= val x.

(** The entries whose value is [q]. *)
Definition tied (q : Q) (x : A) : bool := Qeq_bool (val x) q.

End SortValues.

Arguments goes_before {A} val ascending y x.
Arguments insert_value {A} val ascending x l.
Arguments sort_values {A} val ascending l.
Arguments nlargest {A} val n l.
Arguments not_below {A} val x y.
Arguments tied {A} val q x.

(** [topN] on a series of sums. *)
Definition topN {K : Type} (sums : series K) (n : nat) : series K :=
  nlargest snd n sums.

(** ** The grouped sums of the dashboard *)

(** dash.py:190 *)
Definition category_spend (view : dataframe) : series string :=
  sort_values snd true (groupby1 category view).

(** dash.py:233 *)
Definition supplier_spend (view : dataframe) : series string :=
  groupby1 supplier view.

(** dash.py:287 *)
Definition area_spend (view : dataframe) : series string :=
  sort_values snd false (groupby1 area view).

(** dash.py:218 *)
Definition top_suppliers (view : dataframe) : series string :=
  topN (groupby1 supplier view) 15.

(** ** Selections offered by the filter widgets *)

(** dash.py:52 and dash.py:87: the [top_n] labels with the largest
    spend over the whole data set.  On a data set without rows the
    grouped sum has no numeric dtype and [nlargest] raises [TypeError];
    the statements about the top labels are made for a data set with
    rows. *)
Definition top_labels (key : record -> string) (top_n : nat)
    (df : dataframe) : list string :=
  map fst (topN (groupby1 key df) top_n).

Definition top_categories (top_n : nat) (df : dataframe) : list string :=
  top_labels category top_n df.

Definition top_areas (top_n : nat) (df : dataframe) : list string :=
  top_labels area top_n df.

(** dash.py:69-74 and dash.py:104-109: every distinct label is offered
    and preselected. *)
Definition all_categories (df : dataframe) : list string :=
  unique String.eqb (map category df).

Definition all_areas (df : dataframe) : list string :=
  unique String.eqb (map area df).

(** ** Market concentration (dash.py:232-249)

    The share of the five largest suppliers and the data of the pie
    chart (dash.py:256-265) are left out. *)

Definition market_shares (view : dataframe) : list (string * fval) :=
  let spend := supplier_spend view in
  map (fun e => (fst e, fmul (fdiv (snd e) (Qsum (map snd spend))) 100))
      spend.

Definition hhi (view : dataframe) : fval :=
  fsum (map (fun e => fsquare (snd e)) (market_shares view)).

Inductive band : Type :=
| Competitive
| ModeratelyConcentrated
| HighlyConcentrated.

Definition hhi_interpretation (score : fval) : band :=
  if flt score 1500 then Competitive
  else if flt score 2500 then ModeratelyConcentrated
  else HighlyConcentrated.

(** The bands as the page documents them (dash.py:209-211):
    below 1,500 competitive, 1,500 to 2,500 moderately concentrated,
    above 2,500 highly concentrated. *)
Definition documented_band (score : Q) : band :=
  if Qlt_bool score 1500 then Competitive
  else if Qle_bool score 2500 then ModeratelyConcentrated
  else HighlyConcentrated.

(** ** Key performance indicators (dash.py:145-177) *)

(** [Series.max()]; an empty series has no maximum. *)
Fixpoint series_max (l : list Q) : option Q :=
  match l with
  | [] => None
  | x :: l' =>
      match series_max l' with
      | None => Some x
      | Some m => Some (if Qle_bool m x then x else m)
      end
  end.

Record kpis : Type := mkKpis {
  kpi_total_spend : Q;
  kpi_unique_suppliers : nat;
  kpi_avg_invoice : fval;
  kpi_top_supplier_share : fval
}.

(** [avg_invoice] is the exact quotient of the total by the number of
    rows; [Series.mean()] returns the float64 nearest to it. *)
Definition kpi_stage (view : dataframe) : kpis :=
  let total := total_spend view in
  {| kpi_total_spend := total;
     kpi_unique_suppliers := nunique supplier view;
     kpi_avg_invoice :=
       fdiv total (Qnat (List.length view));
     kpi_top_supplier_share :=
       match series_max (map snd (groupby1 supplier view)) with
       | Some m => fmul (fdiv m total) 100
       | None => NaN
       end |}.

Record concentration : Type := mkConcentration {
  conc_hhi : fval;
  conc_status : band
}.

Definition concentration_stage (view : dataframe) : concentration :=
  {| conc_hhi := hhi view;
     conc_status := hhi_interpretation (hhi view) |}.

(** ** The page run (dash.py:122-132)

    [st.error] followed by [st.stop()] ends the run before any later
    stage; otherwise every stage is evaluated on the filtered frame. *)
Inductive outcome : Type :=
| NoData
| Rendered (k : kpis) (c : concentration).

Definition dashboard (df : dataframe)
    (selected_categories selected_areas : list string) : outcome :=
  let view := filtered_df df selected_categories selected_areas in
  if Nat.eqb (List.length view) 0 then NoData
  else Rendered (kpi_stage view) (concentration_stage view).

(** ** Pivot table (dash.py:328-334) *)

Definition pair_eqb (p q : string * string) : bool :=
  String.eqb (fst p) (fst q) && String.eqb (snd p) (snd q).

(** Lexicographic order of the two-level index. *)
Definition pair_leb (p q : string * string) : bool :=
  match String.compare (fst p) (fst q) with
  | Lt => true
  | Eq => String.leb (snd p) (snd q)
  | Gt => false
  end.

(** The key of the two-level grouping of [pivot_table]. *)
Definition pair_key (index columns : record -> string) (r : record)
  : string * string :=
  (index r, columns r).

Record pivot : Type := mkPivot {
  pivot_index : list string;
  pivot_columns : list string;
  pivot_values : list (list Q)
}.

(** [fillna(fill_value)] on one cell. *)
Definition fill (fill_value : Q) (cell : option Q) : Q :=
  match cell with
  | Some v => v
  | None => fill_value
  end.

(** [pivot_table(values, index, columns, aggfunc='sum', fill_value)]:
    sums per (index, columns) pair, then one row per index label and one
    column per columns label, absent pairs filled. *)
Definition pivot_table (index columns : record -> string) (fill_value : Q)
    (view : dataframe) : pivot :=
  let agged :=
    groupby_sum pair_eqb pair_leb (pair_key index columns) view in
  let rows :=
    sort_labels String.leb
      (unique String.eqb (map (fun e => fst (fst e)) agged)) in
  let cols :=
    sort_labels String.leb
      (unique String.eqb (map (fun e => snd (fst e)) agged)) in
  {| pivot_index := rows;
     pivot_columns := cols;
     pivot_values :=
       map (fun c =>
              map (fun a => fill fill_value (series_get pair_eqb (c, a) agged))
                  cols)
           rows |}.

Definition heatmap_data (view : dataframe) : pivot :=
  pivot_table category area 0 view.

(** The cell in row [i], column [j]. *)
Definition pivot_cell (p : pivot) (i j : nat) : option Q :=
  match nth_error (pivot_values p) i with
  | Some row => nth_error row j
  | None => None
  end.

(** The sum of all cells. *)
Definition pivot_total (p : pivot) : Q :=
  Qsum (map Qsum (pivot_values p)).

(** ** Transaction table and CSV export (dash.py:376-391) *)

(** dash.py:377-381: the table shown on the page. *)
Definition transaction_details (view : dataframe) : dataframe :=
  sort_values value false view.

(** Totals never go up along the list. *)
Fixpoint descending (l : list Q) : bool :=
  match l with
  | [] => true
  | x :: l' =>
      match l' with
      | [] => true
      | y :: _ => Qle_bool y x && descending l'
      end
  end.

Local Open Scope char_scope.

Definition comma : ascii := ",".
Definition dquote : ascii := "034".
Definition LF : ascii := "010".
Definition CR : ascii := "013".

(** The four column names set on load (dash.py:16); [to_csv] writes them
    as the header row. *)
Definition columns : list string :=
  [ "Expense Type (Category)"%string; "Expense Area (User/BU)"%string;
    "Supplier"%string; "Invoice Value (GBP)"%string ].

Definition is_special (c : ascii) : bool :=
  Ascii.eqb c comma || Ascii.eqb c dquote
  || Ascii.eqb c LF || Ascii.eqb c CR.

Fixpoint needs_quote (s : string) : bool :=
  match s with
  | EmptyString => false
  | String c s' => is_special c || needs_quote s'
  end.

(** Every quote character inside a quoted field is written twice. *)
Fixpoint escape_quotes (s : string) : string :=
  match s with
  | EmptyString => EmptyString
  | String c s' =>
      if Ascii.eqb c dquote
      then String dquote (String dquote (escape_quotes s'))
      else String c (escape_quotes s')
  end.

(** [QUOTE_MINIMAL]: a field is quoted only when it holds a delimiter, a
    quote character or a line break (recent versions of the writer quote
    a carriage return and a line feed whatever the line terminator). *)
Definition csv_field (s : string) : string :=
  if needs_quote s
  then String dquote (escape_quotes s ++ String dquote EmptyString)%string
  else s.

(** The fields of a row, separated by commas and ended by the line
    terminator. *)
Fixpoint csv_fields (fields : list string) : string :=
  match fields with
  | [] => String LF EmptyString
  | f :: fs =>
      match fs with
      | [] => (csv_field f ++ String LF EmptyString)%string
      | _ :: _ => (csv_field f ++ String comma (csv_fields fs))%string
      end
  end.

(** [writerow]: a row that is one empty field is written as a pair of
    quotes, so that it is not taken for a blank line. *)
Definition csv_row (fields : list string) : string :=
  match fields with
  | [] => csv_fields fields
  | f :: fs =>
      match fs with
      | [] =>
          match f with
          | EmptyString => String dquote (String dquote (String LF EmptyString))
          | String _ _ => csv_fields fields
          end
      | _ :: _ => csv_fields fields
      end
  end.

Fixpoint csv_text (rows : list (list string)) : string :=
  match rows with
  | [] => EmptyString
  | r :: rows' => (csv_row r ++ csv_text rows')%string
  end.

(** *** A reader for the exported text *)

Inductive rstate : Type :=
| FieldStart   (* nothing of the field read yet *)
| InField      (* inside an unquoted field *)
| InQuoted     (* inside a quoted field *)
| QuoteSeen.   (* a quote read inside a quoted field *)

Definition snoc_char (s : string) (c : ascii) : string :=
  (s ++ String c EmptyString)%string.

(** Modelled from the spec: the repository has no CSV reader; this is the
    reader that spec property 7 (parsing the exported CSV) calls for, for
    the dialect [to_csv] writes: fields separated by commas, rows ended
    by a line feed, a quoted field ended by a quote that is not doubled.
    [fld] is the field read so far, [row] the fields of the current row,
    [rows] the finished rows. *)
Fixpoint read_rows (st : rstate) (fld : string) (row : list string)
    (rows : list (list string)) (s : string) : option (list (list string)) :=
  match s with
  | EmptyString =>
      match st with
      | InQuoted => None
      | FieldStart =>
          match row with
          | [] => Some rows
          | _ :: _ => Some (rows ++ [row ++ [fld]])
          end
      | InField | QuoteSeen => Some (rows ++ [row ++ [fld]])
      end
  | String c s' =>
      match st with
      | FieldStart =>
          if Ascii.eqb c dquote then read_rows InQuoted EmptyString row rows s'
          else if Ascii.eqb c comma
          then read_rows FieldStart EmptyString (row ++ [EmptyString]) rows s'
          else if Ascii.eqb c LF
          then read_rows FieldStart EmptyString []
                 (rows ++ [row ++ [EmptyString]]) s'
          else read_rows InField (String c EmptyString) row rows s'
      | InField =>
          if Ascii.eqb c comma
          then read_rows FieldStart EmptyString (row ++ [fld]) rows s'
          else if Ascii.eqb c LF
          then read_rows FieldStart EmptyString [] (rows ++ [row ++ [fld]]) s'
          else read_rows InField (snoc_char fld c) row rows s'
      | InQuoted =>
          if Ascii.eqb c dquote then read_rows QuoteSeen fld row rows s'
          else read_rows InQuoted (snoc_char fld c) row rows s'
      | QuoteSeen =>
          if Ascii.eqb c dquote
          then read_rows InQuoted (snoc_char fld dquote) row rows s'
          else if Ascii.eqb c comma
          then read_rows FieldStart EmptyString (row ++ [fld]) rows s'
          else if Ascii.eqb c LF
          then read_rows FieldStart EmptyString [] (rows ++ [row ++ [fld]]) s'
          else None
      end
  end.

Definition parse_csv (text : string) : option (list (list string)) :=
  read_rows FieldStart EmptyString [] [] text.

(** What the reader does once the field [fld] is ended by [d]: a comma
    adds the field to the row, a line feed also ends the row. *)
Definition after_sep (d : ascii) (fld : string) (row : list string)
    (rows : list (list string)) (rest : string)
  : option (list (list string)) :=
  if Ascii.eqb d comma
  then read_rows FieldStart EmptyString (row ++ [fld]) rows rest
  else read_rows FieldStart EmptyString [] (rows ++ [row ++ [fld]]) rest.

(** The first line of the export. *)
Definition header_text : string :=
  ("Expense Type (Category),Expense Area (User/BU),Supplier,Invoice Value (GBP)"
   ++ String LF EmptyString)%string.

Local Close Scope char_scope.

Section CsvExport.

(** How pandas writes a number of the value column, and how a reader
    turns such text back into a number; both depend on the column's
    dtype and are taken as given. *)
Variable repr : Q -> string.
Variable parse_float : string -> option Q.

Definition record_fields (r : record) : list string :=
  [category r; area r; supplier r; repr (value r)].

(** [filtered_df.to_csv(index=False)] (dash.py:384) *)
Definition to_csv (view : dataframe) : string :=
  csv_text (columns :: map record_fields view).

Definition row_to_record (fields : list string) : option record :=
  match fields with
  | [c; a; s; v] =>
      match parse_float v with
      | Some q => Some (mkRecord c a s q)
      | None => None
      end
  | _ => None
  end.

Fixpoint rows_to_records (rows : list (list string)) : option dataframe :=
  match rows with
  | [] => Some []
  | fields :: rows' =>
      match row_to_record fields, rows_to_records rows' with
      | Some r, Some rs => Some (r :: rs)
      | _, _ => None
      end
  end.

(** Modelled from the spec: reading the export back into records (spec
    property 7); the header must be the four column names. *)
Definition read_csv (text : string) : option dataframe :=
  match parse_csv text with
  | Some (header :: rows) =>
      if list_eq_dec string_dec header columns
      then rows_to_records rows
      else None
  | _ => None
  end.

End CsvExport.

(** A value column of whole pounds has dtype [int64]; pandas writes such
    a number as its decimal numeral, and a reader reads the numeral
    back. *)
Definition repr_int64 (q : Q) : string :=
  NilZero.string_of_int (Z.to_int (Qnum q)).

Definition parse_int64 (s : string) : option Q :=
  match NilZero.int_of_string s with
  | Some d => Some (inject_Z (Z.of_int d))
  | None => None
  end.

(** ** Inputs used in the examples below *)

(** The data set of spec example 5. *)
Definition example_frame : dataframe :=
  [ mkRecord "CatA" "AreaX" "S1" 100;
    mkRecord "CatA" "AreaY" "S2" 300;
    mkRecord "CatB" "AreaX" "S1" 50 ].

(** Four suppliers with one invoice of 100 pounds each: every share is
    25 percent. *)
Definition four_equal_suppliers : dataframe :=
  [ mkRecord "Fuel" "Navy" "S1" 100;
    mkRecord "Fuel" "Navy" "S2" 100;
    mkRecord "Fuel" "Navy" "S3" 100;
    mkRecord "Fuel" "Navy" "S4" 100 ].

(** One invoice of zero pounds. *)
Definition zero_invoice_frame : dataframe :=
  [ mkRecord "Fuel" "Navy" "Acme" 0 ].

(** Two suppliers with the same total. *)
Definition tied_sums : series string :=
  [ ("Acme"%string, 7); ("Brill"%string, 7) ].

(** Two invoices, the smaller one first. *)
Definition ascending_frame : dataframe :=
  [ mkRecord "Fuel" "Navy" "Acme" 1;
    mkRecord "Fuel" "Navy" "Brill" 2 ].

(** Strictly falling totals. *)
Fixpoint strictly_descending (l : list Q) : bool :=
  match l with
  | [] => true
  | x :: l' =>
      match l' with
      | [] => true
      | y :: _ => Qlt_bool y x && strictly_descending l'
      end
  end.

(** An order-preserving selection of the elements of a list. *)
Inductive subsequence {A : Type} : list A -> list A -> Prop :=
| subsequence_nil : subsequence [] []
| subsequence_skip x l1 l2 : subsequence l1 l2 -> subsequence l1 (x :: l2)
| subsequence_keep x l1 l2 :
    subsequence l1 l2 -> subsequence (x :: l1) (x :: l2).

(** The filter predicate in the words of the spec. *)
Definition selected (cats areas : list string) (r : record) : Prop :=
  In (category r) cats /\ In (area r) areas.

(** A share of exactly 100 percent. *)
Definition holds_all (x : fval) : bool :=
  match x with
  | Fin q => Qeq_bool q 100
  | _ => false
  end.

(** The number of suppliers whose share is 100 percent. *)
Definition full_share_count (view : dataframe) : nat :=
  List.length (filter (fun e => holds_all (snd e)) (market_shares view)).

(** ** The other stages of the page *)

(** *** Search mode of the filters (dash.py:59-68 and dash.py:94-103) *)

(** [str.lower()] on the letters A to Z; labels are taken to be ASCII
    text. *)
Definition lower_ascii (c : ascii) : ascii :=
  let n := nat_of_ascii c in
  if Nat.leb 65 n && Nat.leb n 90 then ascii_of_nat (n + 32) else c.

Fixpoint lower (s : string) : string :=
  match s with
  | EmptyString => EmptyString
  | String c s' => String (lower_ascii c) (lower s')
  end.

Fixpoint starts_with (p s : string) : bool :=
  match p with
  | EmptyString => true
  | String a p' =>
      match s with
      | EmptyString => false
      | String b s' => Ascii.eqb a b && starts_with p' s'
      end
  end.

(** [sub in s] for two strings. *)
Fixpoint contains (sub s : string) : bool :=
  starts_with sub s
  || match s with
     | EmptyString => false
     | String _ s' => contains sub s'
     end.

Definition is_empty (s : string) : bool :=
  match s with
  | EmptyString => true
  | String _ _ => false
  end.

(** The options offered after a search: with an empty search box every
    label, otherwise the labels that hold the search text, case
    ignored. *)
Definition search_labels (search : string) (available : list string)
  : list string :=
  if is_empty search then available
  else filter (fun label => contains (lower search) (lower label)) available.

(** [available[:5] if len(available) <= 5 else available[:3]] *)
Definition default_selection (available : list string) : list string :=
  if Nat.leb (List.length available) 5
  then firstn 5 available
  else firstn 3 available.

Definition available_cats (search_cat : string) (df : dataframe)
  : list string :=
  search_labels search_cat (unique String.eqb (map category df)).

Definition available_areas (search_area : string) (df : dataframe)
  : list string :=
  search_labels search_area (unique String.eqb (map area df)).

(** *** The line under the filters (dash.py:131-132) *)

(** [len(filtered_df)/len(df)*100]: a division of Python integers, which
    raises [ZeroDivisionError] (here [None]) on a zero divisor. *)
Definition loaded_percent (df view : dataframe) : option Q :=
  if Nat.eqb (List.length df) 0 then None
  else Some (Qnat (List.length view) / Qnat (List.length df) * 100).

(** *** Share of the five largest suppliers (dash.py:257) *)

(** The order of floats that are not NaN. *)
Definition fval_ltb (x y : fval) : bool :=
  match x, y with
  | Fin a, Fin b => Qlt_bool a b
  | NInf, Fin _ | NInf, PInf | Fin _, PInf => true
  | _, _ => false
  end.

Fixpoint insert_share (x : string * fval) (l : list (string * fval))
  : list (string * fval) :=
  match l with
  | [] => [x]
  | y :: l' =>
      if fval_ltb (snd x) (snd y) then y :: insert_share x l' else x :: l
  end.

(** [Series.nlargest(n)] on a series of floats: the NaN entries are set
    aside, the others are put in descending order (ties in order of
    appearance), the NaN entries follow, and the first [n] are kept. *)
Definition nlargest_shares (n : nat) (s : list (string * fval))
  : list (string * fval) :=
  firstn n
    (fold_right insert_share [] (filter (fun e => negb (is_nan (snd e))) s)
     ++ filter (fun e => is_nan (snd e)) s).

Definition top_5_share (view : dataframe) : fval :=
  fsum (map snd (nlargest_shares 5 (market_shares view))).

(** *** Data of the pie chart (dash.py:261-265) *)

Definition top_10_suppliers (view : dataframe) : series string :=
  topN (supplier_spend view) 10.

(** The exact difference; in float64 the two sums are taken in different
    orders and their difference is this one up to rounding. *)
Definition others_spend (view : dataframe) : Q :=
  Qsum (map snd (supplier_spend view))
  - Qsum (map snd (top_10_suppliers view)).

Definition pie_data (view : dataframe) : list Q :=
  map snd (top_10_suppliers view) ++ [others_spend view].

Definition pie_labels (view : dataframe) : list string :=
  map fst (top_10_suppliers view) ++ ["Others"%string].

(** *** Data of the treemap (dash.py:290-297) *)

Record treemap_node : Type := mkNode {
  node_ids : string;
  node_labels : string;
  node_parents : string;
  node_values : Q
}.

Definition treemap_data (view : dataframe) : list treemap_node :=
  map (fun e => {| node_ids := fst e;
                   node_labels := fst e;
                   node_parents := EmptyString;
                   node_values := snd e |})
      (area_spend view).

(** *** Duplicate rows (dash.py:370) *)

(** Two rows are the same when their four cells are. *)
Definition record_eqb (r1 r2 : record) : bool :=
  String.eqb (category r1) (category r2)
  && String.eqb (area r1) (area r2)
  && String.eqb (supplier r1) (supplier r2)
  && Qeq_bool (value r1) (value r2).

(** [DataFrame.duplicated()] with [keep='first']: a row is marked when
    the same row occurs above it. *)
Fixpoint duplicated_from (seen : list record) (view : dataframe)
  : list bool :=
  match view with
  | [] => []
  | r :: view' =>
      existsb (fun s => record_eqb s r) seen
      :: duplicated_from (r :: seen) view'
  end.

Definition duplicated (view : dataframe) : list bool :=
  duplicated_from [] view.

(** No row of [seen] is the row [r]. *)
Definition unseen (seen : list record) (r : record) : bool :=
  negb (existsb (fun s => record_eqb s r) seen).

(** [filtered_df.duplicated().sum()] *)
Definition duplicate_records (view : dataframe) : nat :=
  List.length (filter (fun b => b) (duplicated view)).

(** *** Inputs and notions used in the statements below *)

(** The relative tolerance within which float64 results are compared
    (1e-9). *)
Definition tolerance : Q := 1 # 1000000000.

(** Two invoices, one of them a credit note. *)
Definition credit_note_frame : dataframe :=
  [ mkRecord "Fuel" "Navy" "Acme" 3;
    mkRecord "Fuel" "Navy" "Brill" (-1) ].

(** *** The index in float64 (dash.py:234-235)

    The computation of [market_shares] and [hhi] on the supplier totals
    in binary64, every operation rounded; the sums run from 0 through the
    entries in order, as the reductions do on a series of fewer than
    eight entries. *)
Definition sum64 (l : list float) : float :=
  fold_left PrimFloat.add l 0%float.

Definition share64 (t g : float) : float :=
  PrimFloat.mul (PrimFloat.div t g) 100%float.

Definition hhi64 (supplier_totals : list float) : float :=
  sum64 (map (fun t =>
                let s := share64 t (sum64 supplier_totals) in
                PrimFloat.mul s s)
             supplier_totals).

(** The rational a finite float stands for. *)
Definition Q_of_float (x : float) : option Q :=
  match Prim2SF x with
  | S754_zero _ => Some 0
  | S754_finite s m e =>
      Some ((if s then -1 else 1) * inject_Z (Zpos m) * 2 ^ e)
  | _ => None
  end.

(** A sum of squares so far: a non-negative number or plus infinity. *)
Definition square_total (x : fval) : Prop :=
  x = PInf \/ exists q, x = Fin q /\ 0 <= q.

(** A record whose category appears in the data set twice. *)
Definition duplicate_frame : dataframe :=
  [ mkRecord "Fuel" "Navy" "Acme" 5;
    mkRecord "Food" "Army" "Brill" 7;
    mkRecord "Fuel" "Navy" "Acme" 5 ].

(** * Properties *)

(** ** Filtering *)

Lemma isin_In (s : string) (values : list string) :
  isin s values = true <-> In s values.
Proof.
  unfold isin. rewrite existsb_exists. split.
  - intros [x [Hin Heq]]. apply String.eqb_eq in Heq. now subst.
  - intros Hin. exists s. split; [assumption | apply String.eqb_refl].
Qed.

Lemma filtered_df_selected df cats areas r :
  In r (filtered_df df cats areas) <-> In r df /\ selected cats areas r.
Proof.
  unfold filtered_df, selected. rewrite filter_In, andb_true_iff.
  now rewrite !isin_In.
Qed.

Section FilterSubsequence.

Variable A : Type.
Variable f : A -> bool.

Lemma filter_subsequence (l : list A) : subsequence (filter f l) l.
Proof.
  induction l as [|x l IH]; simpl.
  - constructor.
  - destruct (f x); now constructor.
Qed.

Lemma subsequence_nil_l (l : list A) : subsequence [] l.
Proof. induction l; now constructor. Qed.

(** Every subsequence whose elements all pass the test is a subsequence
    of the filtered list. *)
Lemma filter_largest (l sub : list A) :
  subsequence sub l ->
  Forall (fun x => f x = true) sub ->
  subsequence sub (filter f l).
Proof.
  induction 1 as [|x l1 l2 Hsub IH|x l1 l2 Hsub IH]; intros Hall; simpl.
  - constructor.
  - destruct (f x); [apply subsequence_skip|]; now apply IH.
  - inversion Hall as [|? ? Hx Hrest]; subst. rewrite Hx.
    apply subsequence_keep. now apply IH.
Qed.

Lemma filter_all_true (l : list A) :
  (forall x, In x l -> f x = true) -> filter f l = l.
Proof.
  induction l as [|x l IH]; simpl; intros H; [reflexivity|].
  rewrite (H x (or_introl eq_refl)). f_equal. apply IH.
  intros y Hy. apply H. now right.
Qed.

End FilterSubsequence.

Lemma filtered_df_no_categories df areas : filtered_df df [] areas = [].
Proof.
  unfold filtered_df. induction df as [|r df IH]; simpl; auto.
Qed.

Lemma filtered_df_no_areas df cats : filtered_df df cats [] = [].
Proof.
  unfold filtered_df. induction df as [|r df IH]; simpl; auto.
  now rewrite andb_false_r.
Qed.

Lemma dashboard_no_data_iff df cats areas :
  dashboard df cats areas = NoData <-> filtered_df df cats areas = [].
Proof.
  unfold dashboard. destruct (filtered_df df cats areas) as [|r view]; simpl.
  - tauto.
  - split; discriminate.
Qed.

(** C4. [filtered_df] returns the order-preserving subsequence of the data
    set made of the records whose category is selected and whose area is
    selected: it is a subsequence of the data set, it holds exactly the
    selected records, and every subsequence of selected records is a
    subsequence of it.  The data set is a value that the filter only
    reads.  With no category or no area selected the result is empty and
    the page run ends in the no-data state. *)
Theorem filtered_df_is_selected_subsequence :
  forall (df : dataframe) (cats areas : list string),
    subsequence (filtered_df df cats areas) df
    /\ (forall r, In r (filtered_df df cats areas)
                  <-> In r df /\ selected cats areas r)
    /\ (forall sub, subsequence sub df ->
                    Forall (selected cats areas) sub ->
                    subsequence sub (filtered_df df cats areas))
    /\ filtered_df df [] areas = []
    /\ filtered_df df cats [] = []
    /\ dashboard df [] areas = NoData
    /\ dashboard df cats [] = NoData.
Proof.
  intros df cats areas.
  split; [apply filter_subsequence|].
  split; [intros r; apply filtered_df_selected|].
  split.
  { intros sub Hsub Hall. apply filter_largest; [assumption|].
    eapply Forall_impl; [|exact Hall].
    intros r [Hc Ha]. apply andb_true_iff. now rewrite !isin_In. }
  split; [apply filtered_df_no_categories|].
  split; [apply filtered_df_no_areas|].
  split; apply dashboard_no_data_iff;
    [apply filtered_df_no_categories | apply filtered_df_no_areas].
Qed.

(** ** Distinct labels and group keys *)

Section GroupKeys.

Variable K : Type.
Variable Keqb : K -> K -> bool.
Hypothesis Keqb_eq : forall a b, Keqb a b = true <-> a = b.

Lemma Keqb_refl (a : K) : Keqb a a = true.
Proof. now apply Keqb_eq. Qed.

Lemma Keqb_neq (a b : K) : Keqb a b = false <-> a <> b.
Proof.
  rewrite <- Keqb_eq. destruct (Keqb a b); split; congruence.
Qed.

Lemma unique_In (x : K) (l : list K) : In x (unique Keqb l) <-> In x l.
Proof.
  induction l as [|y l IH]; simpl; [tauto|].
  rewrite filter_In, IH, negb_true_iff, Keqb_neq.
  destruct (Keqb y x) eqn:E.
  - apply Keqb_eq in E. subst. tauto.
  - apply Keqb_neq in E. tauto.
Qed.

Lemma NoDup_filter (f : K -> bool) (l : list K) :
  NoDup l -> NoDup (filter f l).
Proof.
  induction 1 as [|x l Hx Hl IH]; simpl; [constructor|].
  destruct (f x); [|assumption].
  constructor; [|assumption].
  rewrite filter_In. tauto.
Qed.

Lemma unique_NoDup (l : list K) : NoDup (unique Keqb l).
Proof.
  induction l as [|x l IH]; simpl; constructor.
  - rewrite filter_In, Keqb_refl. simpl. intros [_ H]. discriminate.
  - now apply NoDup_filter.
Qed.

(** Two duplicate-free lists with the same members have the same
    length. *)
Lemma same_members_length (l1 l2 : list K) :
  NoDup l1 -> NoDup l2 -> (forall x, In x l1 <-> In x l2) ->
  List.length l1 = List.length l2.
Proof.
  intros H1 H2 H. apply Permutation_length. now apply NoDup_Permutation.
Qed.

Variable Kleb : K -> K -> bool.

Lemma insert_label_perm (k : K) (l : list K) :
  Permutation (insert_label Kleb k l) (k :: l).
Proof.
  induction l as [|y l IH]; simpl; [reflexivity|].
  destruct (Kleb k y); [reflexivity|].
  rewrite IH. apply perm_swap.
Qed.

Lemma sort_labels_perm (l : list K) : Permutation (sort_labels Kleb l) l.
Proof.
  induction l as [|x l IH]; simpl; [reflexivity|].
  rewrite insert_label_perm. now constructor.
Qed.

Lemma sorted_unique_In (x : K) (l : list K) :
  In x (sort_labels Kleb (unique Keqb l)) <-> In x l.
Proof.
  split; intros H.
  - apply unique_In.
    eapply Permutation_in; [apply sort_labels_perm | exact H].
  - eapply Permutation_in; [symmetry; apply sort_labels_perm|].
    now apply unique_In.
Qed.

Lemma sorted_unique_NoDup (l : list K) :
  NoDup (sort_labels Kleb (unique Keqb l)).
Proof.
  eapply Permutation_NoDup; [symmetry; apply sort_labels_perm|].
  apply unique_NoDup.
Qed.

Lemma sorted_unique_length (l : list K) :
  List.length (sort_labels Kleb (unique Keqb l))
  = List.length (unique Keqb l).
Proof. apply Permutation_length, sort_labels_perm. Qed.

Variable key : record -> K.

Lemma group_keys_In (k : K) (view : dataframe) :
  In k (group_keys Keqb Kleb key view) <-> exists r, In r view /\ key r = k.
Proof.
  unfold group_keys. rewrite sorted_unique_In, in_map_iff.
  split; intros [r [H1 H2]]; exists r; tauto.
Qed.

Lemma group_keys_NoDup (view : dataframe) :
  NoDup (group_keys Keqb Kleb key view).
Proof. apply sorted_unique_NoDup. Qed.

Lemma groupby_sum_keys (view : dataframe) :
  map fst (groupby_sum Keqb Kleb key view) = group_keys Keqb Kleb key view.
Proof.
  unfold groupby_sum. rewrite map_map. simpl. apply map_id.
Qed.

Lemma groupby_sum_length (view : dataframe) :
  List.length (groupby_sum Keqb Kleb key view)
  = List.length (unique Keqb (map key view)).
Proof.
  unfold groupby_sum, group_keys.
  now rewrite length_map, sorted_unique_length.
Qed.

End GroupKeys.

Lemma pair_eqb_eq (p q : string * string) : pair_eqb p q = true <-> p = q.
Proof.
  destruct p as [a b], q as [c d]. unfold pair_eqb. simpl.
  rewrite andb_true_iff, !String.eqb_eq. split.
  - intros [-> ->]. reflexivity.
  - intros H. inversion H. tauto.
Qed.

(** C10. With every distinct category and every distinct area of the data
    set selected, as the select-all mode of the two filters does, the
    filter returns the data set itself: the same records in the same
    order. *)
Theorem select_all_is_identity :
  forall df : dataframe,
    filtered_df df (all_categories df) (all_areas df) = df.
Proof.
  intros df. unfold filtered_df. apply filter_all_true.
  intros r Hr. apply andb_true_iff. rewrite !isin_In.
  unfold all_categories, all_areas.
  split; apply (unique_In string String.eqb String.eqb_eq);
    now apply in_map.
Qed.

(** ** The no-data state *)

(** C3, as stated, fails: a view with one invoice of zero pounds has a
    grand total of zero, yet the run is not cut short; the KPI stage
    divides by the total and the top supplier share is NaN, while the
    NaN shares are skipped by the sum and the index comes out as 0. *)
Lemma zero_total_view_is_not_cut_short :
  total_spend (filtered_df zero_invoice_frame ["Fuel"%string] ["Navy"%string])
    == 0
  /\ dashboard zero_invoice_frame ["Fuel"%string] ["Navy"%string]
     = Rendered
         {| kpi_total_spend := 0;
            kpi_unique_suppliers := 1;
            kpi_avg_invoice := Fin 0;
            kpi_top_supplier_share := NaN |}
         {| conc_hhi := Fin 0; conc_status := Competitive |}.
Proof. split; reflexivity. Qed.

(** C3, amended. The run ends in the no-data state exactly when the
    filtered view has no rows; on every view with at least one row the
    KPI and concentration stages are evaluated on it, whatever its
    total. *)
Theorem no_data_iff_view_is_empty :
  forall (df : dataframe) (cats areas : list string),
    (dashboard df cats areas = NoData <-> filtered_df df cats areas = [])
    /\ (filtered_df df cats areas <> [] ->
        dashboard df cats areas
        = Rendered (kpi_stage (filtered_df df cats areas))
                   (concentration_stage (filtered_df df cats areas))).
Proof.
  intros df cats areas. split; [apply dashboard_no_data_iff|].
  unfold dashboard.
  destruct (filtered_df df cats areas) as [|r view]; [congruence|].
  reflexivity.
Qed.

(** ** Exact sums *)

Lemma Qsum_app (l1 l2 : list Q) : Qsum (l1 ++ l2) == Qsum l1 + Qsum l2.
Proof.
  induction l1 as [|x l1 IH]; simpl; [ring|]. rewrite IH. ring.
Qed.

Lemma Qsum_perm (l1 l2 : list Q) :
  Permutation l1 l2 -> Qsum l1 == Qsum l2.
Proof.
  induction 1 as [|x l1 l2 _ IH|x y l|l1 l2 l3 _ IH1 _ IH2]; simpl.
  - reflexivity.
  - now rewrite IH.
  - ring.
  - now rewrite IH1.
Qed.

Section SumsOfMaps.

Variable A : Type.

Lemma Qsum_map_ext (f g : A -> Q) (l : list A) :
  (forall x, In x l -> f x == g x) -> Qsum (map f l) == Qsum (map g l).
Proof.
  induction l as [|x l IH]; simpl; intros H; [reflexivity|].
  rewrite (H x (or_introl eq_refl)), IH; [reflexivity|].
  intros y Hy. apply H. now right.
Qed.

Lemma Qsum_map_plus (f g : A -> Q) (l : list A) :
  Qsum (map (fun x => f x + g x) l) == Qsum (map f l) + Qsum (map g l).
Proof.
  induction l as [|x l IH]; simpl; [ring|]. rewrite IH. ring.
Qed.

Lemma Qsum_map_zero (f : A -> Q) (l : list A) :
  (forall x, In x l -> f x == 0) -> Qsum (map f l) == 0.
Proof.
  induction l as [|x l IH]; simpl; intros H; [reflexivity|].
  rewrite (H x (or_introl eq_refl)), IH; [ring|].
  intros y Hy. apply H. now right.
Qed.

Lemma Qsum_map_nonneg (f : A -> Q) (l : list A) :
  (forall x, In x l -> 0 <= f x) -> 0 <= Qsum (map f l).
Proof.
  induction l as [|x l IH]; simpl; intros H; [apply Qle_refl|].
  assert (0 <= f x) by (apply H; now left).
  assert (0 <= Qsum (map f l)) by (apply IH; intros y Hy; apply H; now right).
  lra.
Qed.

End SumsOfMaps.

(** ** Conservation of the grouped sums *)

Section GroupTotals.

Variable K : Type.
Variable Keqb : K -> K -> bool.
Hypothesis Keqb_eq : forall a b, Keqb a b = true <-> a = b.
Variable key : record -> K.

(** Among duplicate-free labels only one equals [x]. *)
Lemma Qsum_pick_one (x : K) (a : Q) (ks : list K) :
  NoDup ks -> In x ks ->
  Qsum (map (fun k => if Keqb x k then a else 0) ks) == a.
Proof.
  induction 1 as [|k ks Hk Hks IH]; simpl; intros Hin; [contradiction|].
  destruct (Keqb x k) eqn:E.
  - apply Keqb_eq in E. subst k.
    rewrite Qsum_map_zero; [ring|].
    intros y Hy. destruct (Keqb x y) eqn:E'; [|reflexivity].
    apply Keqb_eq in E'. now subst.
  - destruct Hin as [->|Hin].
    + rewrite (Keqb_refl K Keqb Keqb_eq) in E. discriminate.
    + rewrite IH by assumption. ring.
Qed.

Lemma group_rows_total_cons (k : K) (r : record) (view : dataframe) :
  total_spend (group_rows Keqb key k (r :: view))
  == (if Keqb (key r) k then value r else 0)
     + total_spend (group_rows Keqb key k view).
Proof.
  unfold group_rows, total_spend. simpl.
  destruct (Keqb (key r) k); simpl; ring.
Qed.

(** Every record is counted in exactly one group: with duplicate-free
    labels that cover the keys of the view, the group totals add up to
    the total of the view. *)
Lemma group_totals_sum (ks : list K) (view : dataframe) :
  NoDup ks ->
  (forall r, In r view -> In (key r) ks) ->
  Qsum (map (fun k => total_spend (group_rows Keqb key k view)) ks)
  == total_spend view.
Proof.
  intros Hnd. induction view as [|r view IH]; intros Hcover.
  - apply Qsum_map_zero. intros; reflexivity.
  - rewrite (Qsum_map_ext _ _
               (fun k => (if Keqb (key r) k then value r else 0)
                          + total_spend (group_rows Keqb key k view)))
      by (intros; apply group_rows_total_cons).
    rewrite Qsum_map_plus, Qsum_pick_one, IH.
    + unfold total_spend. simpl. reflexivity.
    + intros r' Hr'. apply Hcover. now right.
    + assumption.
    + apply Hcover. now left.
Qed.

Variable Kleb : K -> K -> bool.

Lemma groupby_sum_total (view : dataframe) :
  Qsum (map snd (groupby_sum Keqb Kleb key view)) == total_spend view.
Proof.
  unfold groupby_sum. rewrite map_map. simpl.
  apply group_totals_sum.
  - now apply group_keys_NoDup.
  - intros r Hr. apply (group_keys_In K Keqb Keqb_eq). now exists r.
Qed.

End GroupTotals.

(** ** Sorting by value *)

Lemma Qlt_bool_iff (a b : Q) : Qlt_bool a b = true <-> a < b.
Proof.
  unfold Qlt_bool. rewrite negb_true_iff.
  destruct (Qle_bool b a) eqn:E.
  - apply Qle_bool_iff in E. split; [discriminate | intros H; lra].
  - split; [intros _ | reflexivity].
    apply Qnot_le_lt. intros H. apply Qle_bool_iff in H. congruence.
Qed.

Lemma Qlt_bool_false_iff (a b : Q) : Qlt_bool a b = false <-> b <= a.
Proof.
  unfold Qlt_bool. rewrite negb_false_iff. apply Qle_bool_iff.
Qed.

Section SortProperties.

Variable A : Type.
Variable val : A -> Q.

Lemma insert_value_perm (asc : bool) (x : A) (l : list A) :
  Permutation (insert_value val asc x l) (x :: l).
Proof.
  induction l as [|y l IH]; simpl; [reflexivity|].
  destruct (goes_before val asc y x); [|reflexivity].
  rewrite IH. apply perm_swap.
Qed.

Lemma sort_values_perm (asc : bool) (l : list A) :
  Permutation (sort_values val asc l) l.
Proof.
  induction l as [|x l IH]; simpl; [reflexivity|].
  rewrite insert_value_perm. now constructor.
Qed.

Lemma insert_value_In (asc : bool) (x y : A) (l : list A) :
  In y (insert_value val asc x l) -> y = x \/ In y l.
Proof.
  intros H. apply (Permutation_in _ (insert_value_perm asc x l)) in H.
  destruct H; [left; congruence | now right].
Qed.

Lemma insert_value_descending (x : A) (l : list A) :
  StronglySorted (not_below val) l ->
  StronglySorted (not_below val) (insert_value val false x l).
Proof.
  induction 1 as [|y l Hl IH Hy]; simpl.
  - repeat constructor.
  - unfold goes_before. destruct (Qlt_bool (val x) (val y)) eqn:E.
    + apply Qlt_bool_iff in E. constructor; [assumption|].
      apply Forall_forall. intros z Hz.
      apply insert_value_In in Hz. destruct Hz as [->|Hz].
      * unfold not_below. lra.
      * rewrite Forall_forall in Hy. now apply Hy.
    + apply Qlt_bool_false_iff in E.
      constructor; [now constructor|].
      constructor; [exact E|].
      rewrite Forall_forall in Hy |- *. intros z Hz.
      specialize (Hy z Hz). unfold not_below in *. lra.
Qed.

Lemma sort_values_descending (l : list A) :
  StronglySorted (not_below val) (sort_values val false l).
Proof.
  induction l as [|x l IH]; simpl; [constructor|].
  now apply insert_value_descending.
Qed.

(** A list that is already descending is left as it is. *)
Lemma sort_values_fixes_descending (l : list A) :
  StronglySorted (not_below val) l -> sort_values val false l = l.
Proof.
  induction 1 as [|x l Hl IH Hx]; simpl; [reflexivity|].
  rewrite IH. destruct l as [|y l']; simpl; [reflexivity|].
  inversion Hx as [|? ? Hy _]; subst.
  unfold goes_before.
  replace (Qlt_bool (val x) (val y)) with false; [reflexivity|].
  symmetry. now apply Qlt_bool_false_iff.
Qed.

Lemma firstn_descending (n : nat) (l : list A) :
  StronglySorted (not_below val) l ->
  StronglySorted (not_below val) (firstn n l).
Proof.
  intros H. revert n. induction H as [|x l Hl IH Hx]; intros [|n]; simpl;
    try constructor.
  - apply IH.
  - rewrite Forall_forall in Hx |- *. intros y Hy. apply Hx.
    rewrite <- (firstn_skipn n l). apply in_or_app. now left.
Qed.

(** What is cut off is not above anything that is kept. *)
Lemma skipn_not_above_firstn (n : nat) (l : list A) :
  StronglySorted (not_below val) l ->
  forall x y, In x (firstn n l) -> In y (skipn n l) -> val y <= val x.
Proof.
  intros H. revert n. induction H as [|z l Hl IH Hz]; intros [|n] x y;
    simpl; try contradiction.
  intros [->|Hx] Hy.
  - rewrite Forall_forall in Hz. apply Hz.
    rewrite <- (firstn_skipn n l). apply in_or_app. now right.
  - now apply (IH n).
Qed.

(** Stability: the entries with a given value keep their order. *)
Lemma insert_value_tied (asc : bool) (q : Q) (x : A) (l : list A) :
  filter (tied val q) (insert_value val asc x l) = filter (tied val q) (x :: l).
Proof.
  induction l as [|y l IH]; simpl; [reflexivity|].
  destruct (goes_before val asc y x) eqn:E; [|reflexivity].
  simpl. rewrite IH. simpl.
  destruct (tied val q x) eqn:Ex; [|reflexivity].
  destruct (tied val q y) eqn:Ey; [|reflexivity].
  exfalso. unfold tied in *. apply Qeq_bool_iff in Ex, Ey.
  unfold goes_before in E.
  destruct asc; apply Qlt_bool_iff in E; lra.
Qed.

Lemma sort_values_tied (asc : bool) (q : Q) (l : list A) :
  filter (tied val q) (sort_values val asc l) = filter (tied val q) l.
Proof.
  induction l as [|x l IH]; simpl; [reflexivity|].
  rewrite insert_value_tied. simpl. now rewrite IH.
Qed.

Lemma nlargest_length (n : nat) (l : list A) :
  List.length (nlargest val n l) = Nat.min n (List.length l).
Proof.
  unfold nlargest. rewrite length_firstn.
  now rewrite (Permutation_length (sort_values_perm false l)).
Qed.

Lemma nlargest_descending (n : nat) (l : list A) :
  StronglySorted (not_below val) (nlargest val n l).
Proof. apply firstn_descending, sort_values_descending. Qed.

Lemma nlargest_idempotent (n : nat) (l : list A) :
  nlargest val n (nlargest val n l) = nlargest val n l.
Proof.
  unfold nlargest at 1.
  rewrite sort_values_fixes_descending by apply nlargest_descending.
  unfold nlargest. rewrite firstn_firstn. now rewrite Nat.min_id.
Qed.

Lemma nlargest_tied_prefix (n : nat) (q : Q) (l : list A) :
  exists rest,
    filter (tied val q) l = filter (tied val q) (nlargest val n l) ++ rest.
Proof.
  exists (filter (tied val q) (skipn n (sort_values val false l))).
  unfold nlargest. rewrite <- filter_app, firstn_skipn.
  symmetry. apply sort_values_tied.
Qed.

Lemma nlargest_keeps_largest (n : nat) (l : list A) :
  exists rest,
    Permutation l (nlargest val n l ++ rest)
    /\ forall x y, In x (nlargest val n l) -> In y rest -> val y <= val x.
Proof.
  exists (skipn n (sort_values val false l)). split.
  - unfold nlargest. rewrite firstn_skipn. symmetry. apply sort_values_perm.
  - apply skipn_not_above_firstn, sort_values_descending.
Qed.

End SortProperties.

Lemma groupby1_total (key : record -> string) (view : dataframe) :
  Qsum (map snd (groupby1 key view)) == total_spend view.
Proof. apply groupby_sum_total, String.eqb_eq. Qed.

Lemma sort_values_total (asc : bool) (s : series string) :
  Qsum (map snd (sort_values snd asc s)) == Qsum (map snd s).
Proof. apply Qsum_perm, Permutation_map, sort_values_perm. Qed.

(** C2. On every filtered view the category totals, the area totals and
    the supplier totals each add up to the total of the value column of
    the view. *)
Theorem grouped_sums_conserve_total :
  forall (df : dataframe) (cats areas : list string),
    Qsum (map snd (category_spend (filtered_df df cats areas)))
      == total_spend (filtered_df df cats areas)
    /\ Qsum (map snd (area_spend (filtered_df df cats areas)))
      == total_spend (filtered_df df cats areas)
    /\ Qsum (map snd (supplier_spend (filtered_df df cats areas)))
      == total_spend (filtered_df df cats areas).
Proof.
  intros df cats areas. unfold category_spend, area_spend, supplier_spend.
  rewrite !sort_values_total. repeat split; apply groupby1_total.
Qed.

(** ** [topN] *)

(** C7, as stated, fails: two equal totals are both returned, and the
    totals of the result are then not strictly descending. *)
Lemma tied_totals_are_not_strictly_descending :
  topN tied_sums 2 = tied_sums
  /\ strictly_descending (map snd (topN tied_sums 2)) = false.
Proof. split; reflexivity. Qed.

(** C7, amended. [topN sums n] has exactly [min n (len sums)] entries,
    hence at most that many; its totals never increase along the result;
    entries
    with equal totals keep the order they have in [sums], and when a tie
    is cut the earlier entries are the ones kept; nothing left out is
    larger than anything kept; and [topN] applied again with the same
    [n] returns its argument unchanged. *)
Theorem topN_descending_stable_idempotent :
  forall (K : Type) (sums : series K) (n : nat),
    List.length (topN sums n) = Nat.min n (List.length sums)
    /\ StronglySorted (not_below snd) (topN sums n)
    /\ (forall q, exists rest,
          filter (tied snd q) sums
          = filter (tied snd q) (topN sums n) ++ rest)
    /\ (exists rest,
          Permutation sums (topN sums n ++ rest)
          /\ forall x y, In x (topN sums n) -> In y rest -> snd y <= snd x)
    /\ topN (topN sums n) n = topN sums n.
Proof.
  intros K sums n. unfold topN.
  split; [apply nlargest_length|].
  split; [apply nlargest_descending|].
  split; [intros q; apply nlargest_tied_prefix|].
  split; [apply nlargest_keeps_largest | apply nlargest_idempotent].
Qed.

(** dash.py:218: the chart of the largest suppliers has one bar per
    supplier, up to 15. *)
Lemma top_suppliers_length (view : dataframe) :
  List.length (top_suppliers view) = Nat.min 15 (nunique supplier view).
Proof.
  unfold top_suppliers, topN. rewrite nlargest_length. f_equal.
  apply groupby_sum_length.
Qed.

(** ** Classification of the index *)

Lemma hhi_interpretation_bands (score : Q) :
  (score < 1500 -> hhi_interpretation (Fin score) = Competitive)
  /\ (1500 <= score -> score < 2500 ->
      hhi_interpretation (Fin score) = ModeratelyConcentrated)
  /\ (2500 <= score -> hhi_interpretation (Fin score) = HighlyConcentrated).
Proof.
  unfold hhi_interpretation, flt.
  fold (Qlt_bool score 1500). fold (Qlt_bool score 2500).
  repeat split.
  - intros H. apply Qlt_bool_iff in H. now rewrite H.
  - intros H1 H2. apply Qlt_bool_false_iff in H1. apply Qlt_bool_iff in H2.
    now rewrite H1, H2.
  - intros H. assert (H1 : 1500 <= score) by lra.
    apply Qlt_bool_false_iff in H, H1. now rewrite H, H1.
Qed.

(** Away from 2500 the status shown is the documented band. *)
Lemma hhi_interpretation_documented (score : Q) :
  ~ score == 2500 ->
  hhi_interpretation (Fin score) = documented_band score.
Proof.
  intros Hne. unfold hhi_interpretation, documented_band, flt.
  fold (Qlt_bool score 1500). fold (Qlt_bool score 2500).
  destruct (Qlt_bool score 1500) eqn:E1; [reflexivity|].
  destruct (Qlt_bool score 2500) eqn:E2.
  - apply Qlt_bool_iff in E2.
    assert (H : Qle_bool score 2500 = true) by (apply Qle_bool_iff; lra).
    now rewrite H.
  - apply Qlt_bool_false_iff in E2.
    destruct (Qle_bool score 2500) eqn:E3; [|reflexivity].
    apply Qle_bool_iff in E3. exfalso. apply Hne. lra.
Qed.

(** C1, on the input where the code departs from it.  With four
    suppliers of equal spend every share is 25 and the index is exactly
    2500; the page text puts 2500 in the moderately concentrated band,
    the branch [elif hhi < 2500] does not, and the status shown is highly
    concentrated. *)
Theorem hhi_2500_is_classified_highly_concentrated :
  exists score,
    hhi four_equal_suppliers = Fin score
    /\ score == 2500
    /\ hhi_interpretation (hhi four_equal_suppliers) = HighlyConcentrated
    /\ documented_band score = ModeratelyConcentrated.
Proof.
  eexists. split; [reflexivity|]. repeat split.
Qed.

(** ** Pivot table *)

Section SeriesLookup.

Variable K : Type.
Variable Keqb : K -> K -> bool.
Hypothesis Keqb_eq : forall a b, Keqb a b = true <-> a = b.

Lemma series_get_tabulate (f : K -> Q) (k : K) (ks : list K) :
  series_get Keqb k (map (fun k' => (k', f k')) ks)
  = if existsb (Keqb k) ks then Some (f k) else None.
Proof.
  induction ks as [|k' ks IH]; simpl; [reflexivity|].
  destruct (Keqb k k') eqn:E; simpl; [|exact IH].
  apply Keqb_eq in E. now subst.
Qed.

End SeriesLookup.

Lemma filter_none {A : Type} (f : A -> bool) (l : list A) :
  (forall x, In x l -> f x = false) -> filter f l = [].
Proof.
  induction l as [|x l IH]; simpl; intros H; [reflexivity|].
  rewrite (H x (or_introl eq_refl)). apply IH.
  intros y Hy. apply H. now right.
Qed.

Lemma filter_andb {A : Type} (f g : A -> bool) (l : list A) :
  filter (fun x => f x && g x) l = filter g (filter f l).
Proof.
  induction l as [|x l IH]; simpl; [reflexivity|].
  destruct (f x); simpl; [|exact IH].
  destruct (g x); now rewrite IH.
Qed.

Section PivotProperties.

Variable index columns : record -> string.

Lemma pair_group_rows (c a : string) (view : dataframe) :
  group_rows pair_eqb (pair_key index columns) (c, a) view
  = group_rows String.eqb columns a (group_rows String.eqb index c view).
Proof. unfold group_rows, pair_eqb. simpl. apply filter_andb. Qed.

(** A cell holds the total of the records of its row and column. *)
Lemma pivot_cell_value (c a : string) (view : dataframe) :
  fill 0 (series_get pair_eqb (c, a)
            (groupby_sum pair_eqb pair_leb (pair_key index columns) view))
  = total_spend (group_rows pair_eqb (pair_key index columns) (c, a) view).
Proof.
  unfold groupby_sum.
  rewrite (series_get_tabulate _ pair_eqb pair_eqb_eq).
  destruct (existsb (pair_eqb (c, a))
              (group_keys pair_eqb pair_leb (pair_key index columns) view))
    eqn:E; simpl; [reflexivity|].
  unfold group_rows. rewrite filter_none; [reflexivity|].
  intros r Hr.
  destruct (pair_eqb (pair_key index columns r) (c, a)) eqn:E';
    [|reflexivity].
  apply pair_eqb_eq in E'.
  assert (Hex : existsb (pair_eqb (c, a))
                  (group_keys pair_eqb pair_leb (pair_key index columns) view)
                = true).
  { apply existsb_exists. exists (c, a). split.
    - apply (group_keys_In _ pair_eqb pair_eqb_eq). now exists r.
    - now apply pair_eqb_eq. }
  congruence.
Qed.

Lemma pivot_rows_In (c : string) (view : dataframe) :
  In c (pivot_index (pivot_table index columns 0 view))
  <-> exists r, In r view /\ index r = c.
Proof.
  unfold pivot_table. simpl.
  rewrite (sorted_unique_In _ String.eqb String.eqb_eq).
  rewrite <- (map_map fst fst), (groupby_sum_keys _ pair_eqb), in_map_iff.
  split.
  - intros [[c' a'] [Hc Hin]]. simpl in Hc. subst c'.
    apply (group_keys_In _ pair_eqb pair_eqb_eq) in Hin.
    destruct Hin as [r [Hr Hk]]. exists r. split; [assumption|].
    unfold pair_key in Hk. congruence.
  - intros [r [Hr Hc]]. exists (pair_key index columns r). split; [exact Hc|].
    apply (group_keys_In _ pair_eqb pair_eqb_eq). now exists r.
Qed.

Lemma pivot_columns_In (a : string) (view : dataframe) :
  In a (pivot_columns (pivot_table index columns 0 view))
  <-> exists r, In r view /\ columns r = a.
Proof.
  unfold pivot_table. simpl.
  rewrite (sorted_unique_In _ String.eqb String.eqb_eq).
  rewrite <- (map_map fst snd), (groupby_sum_keys _ pair_eqb), in_map_iff.
  split.
  - intros [[c' a'] [Ha Hin]]. simpl in Ha. subst a'.
    apply (group_keys_In _ pair_eqb pair_eqb_eq) in Hin.
    destruct Hin as [r [Hr Hk]]. exists r. split; [assumption|].
    unfold pair_key in Hk. congruence.
  - intros [r [Hr Ha]]. exists (pair_key index columns r). split; [exact Ha|].
    apply (group_keys_In _ pair_eqb pair_eqb_eq). now exists r.
Qed.

Lemma pivot_rows_NoDup (view : dataframe) :
  NoDup (pivot_index (pivot_table index columns 0 view)).
Proof. apply sorted_unique_NoDup, String.eqb_eq. Qed.

Lemma pivot_columns_NoDup (view : dataframe) :
  NoDup (pivot_columns (pivot_table index columns 0 view)).
Proof. apply sorted_unique_NoDup, String.eqb_eq. Qed.

Lemma pivot_rows_length (view : dataframe) :
  List.length (pivot_index (pivot_table index columns 0 view))
  = nunique index view.
Proof.
  apply same_members_length.
  - apply pivot_rows_NoDup.
  - apply unique_NoDup, String.eqb_eq.
  - intros c. rewrite pivot_rows_In, (unique_In _ String.eqb String.eqb_eq).
    rewrite in_map_iff. split; intros [r H]; exists r; tauto.
Qed.

Lemma pivot_columns_length (view : dataframe) :
  List.length (pivot_columns (pivot_table index columns 0 view))
  = nunique columns view.
Proof.
  apply same_members_length.
  - apply pivot_columns_NoDup.
  - apply unique_NoDup, String.eqb_eq.
  - intros c. rewrite pivot_columns_In, (unique_In _ String.eqb String.eqb_eq).
    rewrite in_map_iff. split; intros [r H]; exists r; tauto.
Qed.

Lemma pivot_values_eq (view : dataframe) :
  let p := pivot_table index columns 0 view in
  pivot_values p
  = map (fun c =>
           map (fun a =>
                  total_spend
                    (group_rows pair_eqb (pair_key index columns) (c, a) view))
               (pivot_columns p))
        (pivot_index p).
Proof.
  simpl. apply map_ext. intros c. apply map_ext. intros a.
  apply pivot_cell_value.
Qed.

Lemma pivot_cell_at (view : dataframe) (i j : nat) (c a : string) :
  let p := pivot_table index columns 0 view in
  nth_error (pivot_index p) i = Some c ->
  nth_error (pivot_columns p) j = Some a ->
  pivot_cell p i j
  = Some (total_spend
            (group_rows pair_eqb (pair_key index columns) (c, a) view)).
Proof.
  intros p Hi Hj. unfold pivot_cell. subst p. rewrite pivot_values_eq.
  rewrite nth_error_map, Hi. cbn [option_map].
  now rewrite nth_error_map, Hj.
Qed.

Lemma pivot_total_conserved (view : dataframe) :
  pivot_total (pivot_table index columns 0 view) == total_spend view.
Proof.
  unfold pivot_total. rewrite pivot_values_eq, map_map.
  rewrite <- (group_totals_sum _ String.eqb String.eqb_eq index
                (pivot_index (pivot_table index columns 0 view)) view).
  - apply Qsum_map_ext. intros c Hc.
    rewrite <- (group_totals_sum _ String.eqb String.eqb_eq columns
                  (pivot_columns (pivot_table index columns 0 view))
                  (group_rows String.eqb index c view)).
    + apply Qsum_map_ext. intros a Ha. now rewrite pair_group_rows.
    + apply pivot_columns_NoDup.
    + intros r Hr. apply pivot_columns_In. exists r. split; [|reflexivity].
      unfold group_rows in Hr. apply filter_In in Hr. tauto.
  - apply pivot_rows_NoDup.
  - intros r Hr. apply pivot_rows_In. now exists r.
Qed.

End PivotProperties.

(** C6. [heatmap_data] has one row per distinct category and one column
    per distinct area of the view, every row has one cell per column,
    the cell of a category and an area holds the total of the records
    with that category and area, a combination that no record has holds
    exactly 0, and all cells together add up to the total of the view. *)
Theorem heatmap_data_is_dense_and_conserves_total :
  forall view : dataframe,
    List.length (pivot_index (heatmap_data view)) = nunique category view
    /\ List.length (pivot_columns (heatmap_data view)) = nunique area view
    /\ List.length (pivot_values (heatmap_data view))
       = List.length (pivot_index (heatmap_data view))
    /\ Forall (fun row =>
                 List.length row
                 = List.length (pivot_columns (heatmap_data view)))
              (pivot_values (heatmap_data view))
    /\ (forall i j c a,
          nth_error (pivot_index (heatmap_data view)) i = Some c ->
          nth_error (pivot_columns (heatmap_data view)) j = Some a ->
          pivot_cell (heatmap_data view) i j
          = Some (total_spend
                    (group_rows pair_eqb (pair_key category area) (c, a) view)))
    /\ (forall i j c a,
          nth_error (pivot_index (heatmap_data view)) i = Some c ->
          nth_error (pivot_columns (heatmap_data view)) j = Some a ->
          (forall r, In r view -> ~ (category r = c /\ area r = a)) ->
          pivot_cell (heatmap_data view) i j = Some 0)
    /\ pivot_total (heatmap_data view) == total_spend view.
Proof.
  intros view. unfold heatmap_data.
  split; [apply pivot_rows_length|].
  split; [apply pivot_columns_length|].
  split; [rewrite pivot_values_eq; apply length_map|].
  split.
  { rewrite pivot_values_eq. apply Forall_forall. intros row Hrow.
    apply in_map_iff in Hrow. destruct Hrow as [c [<- _]].
    apply length_map. }
  split; [intros i j c a; apply pivot_cell_at|].
  split; [|apply pivot_total_conserved].
  intros i j c a Hi Hj Habsent.
  rewrite (pivot_cell_at category area view i j c a Hi Hj).
  unfold group_rows. rewrite filter_none; [reflexivity|].
  intros r Hr. destruct (pair_eqb (pair_key category area r) (c, a)) eqn:E;
    [|reflexivity].
  apply pair_eqb_eq in E. unfold pair_key in E. inversion E.
  exfalso. apply (Habsent r Hr). tauto.
Qed.

(** ** Bounds of the index *)

Lemma Qnat_S (n : nat) : Qnat (S n) == Qnat n + 1.
Proof.
  unfold Qnat. rewrite Nat2Z.inj_succ, <- Z.add_1_r, inject_Z_plus.
  reflexivity.
Qed.

Lemma Qnat_nonneg (n : nat) : 0 <= Qnat n.
Proof.
  unfold Qnat. change 0 with (inject_Z 0). rewrite <- Zle_Qle. lia.
Qed.

Lemma Qnat_pos (n : nat) : (0 < n)%nat -> 0 < Qnat n.
Proof.
  unfold Qnat. change 0 with (inject_Z 0). rewrite <- Zlt_Qlt. lia.
Qed.

Section SquareSums.

Lemma Qsq_nonneg (a : Q) : 0 <= a * a.
Proof.
  destruct (Qlt_le_dec a 0) as [Hneg|Hpos].
  - setoid_replace (a * a) with ((- a) * (- a)) by ring.
    apply Qmult_le_0_compat; lra.
  - now apply Qmult_le_0_compat.
Qed.

Lemma nonneg_sum (l : list Q) : nonneg l -> 0 <= Qsum l.
Proof.
  induction 1 as [|x l Hx Hl IH]; simpl; [apply Qle_refl | lra].
Qed.

Lemma nonneg_le_sum (l : list Q) (t : Q) :
  nonneg l -> In t l -> t <= Qsum l.
Proof.
  induction 1 as [|x l Hx Hl IH]; simpl; [contradiction|].
  pose proof (nonneg_sum l Hl). intros [->|Hin].
  - lra.
  - specialize (IH Hin). lra.
Qed.

Lemma nonneg_zero_sum (l : list Q) :
  nonneg l -> Qsum l == 0 -> forall t, In t l -> t == 0.
Proof.
  intros Hl Hs t Hin. pose proof (nonneg_le_sum l t Hl Hin).
  unfold nonneg in Hl. rewrite Forall_forall in Hl. specialize (Hl t Hin).
  lra.
Qed.

(** Upper bound: the squares of non-negative numbers add up to at most
    the square of their sum. *)
Lemma sum_sq_le_sq_sum (l : list Q) :
  nonneg l -> Qsum (map sq l) <= sq (Qsum l).
Proof.
  induction 1 as [|x l Hx Hl IH]; simpl; unfold sq in *; [lra|].
  pose proof (nonneg_sum l Hl). nra.
Qed.

Lemma sum_sq_deviation (l : list Q) (x : Q) :
  0 <= Qsum (map sq l) - 2 * x * Qsum l + Qnat (List.length l) * (x * x).
Proof.
  induction l as [|t l IH]; simpl List.length; simpl Qsum.
  - change (Qnat 0) with 0. lra.
  - rewrite Qnat_S. unfold sq in *.
    pose proof (Qsq_nonneg (t - x)). nra.
Qed.

(** Lower bound (Cauchy-Schwarz with the all-ones vector). *)
Lemma sq_sum_le_n_sum_sq (l : list Q) :
  sq (Qsum l) <= Qnat (List.length l) * Qsum (map sq l).
Proof.
  induction l as [|x l IH]; simpl List.length; simpl Qsum.
  - change (Qnat 0) with 0. unfold sq. lra.
  - rewrite Qnat_S. pose proof (sum_sq_deviation l x).
    unfold sq in *. nra.
Qed.

End SquareSums.

Section FullShare.

Lemma Qeq_bool_false (x y : Q) : ~ x == y -> Qeq_bool x y = false.
Proof.
  intros H. destruct (Qeq_bool x y) eqn:E; [|reflexivity].
  apply Qeq_bool_iff in E. contradiction.
Qed.

Lemma count_eq_cons (g x : Q) (l : list Q) :
  count_eq g (x :: l)
  = ((if Qeq_bool x g then 1 else 0) + count_eq g l)%nat.
Proof. unfold count_eq. simpl. now destruct (Qeq_bool x g). Qed.

Lemma Qeq_bool_compat (x g g' : Q) :
  g == g' -> Qeq_bool x g = Qeq_bool x g'.
Proof.
  intros Hg. destruct (Qeq_bool x g) eqn:E1, (Qeq_bool x g') eqn:E2;
    try reflexivity.
  - apply Qeq_bool_iff in E1. apply Qeq_bool_neq in E2.
    exfalso. apply E2. now rewrite E1.
  - apply Qeq_bool_iff in E2. apply Qeq_bool_neq in E1.
    exfalso. apply E1. now rewrite E2.
Qed.

Lemma count_eq_compat (g g' : Q) (l : list Q) :
  g == g' -> count_eq g l = count_eq g' l.
Proof.
  intros Hg. induction l as [|x l IH]; [reflexivity|].
  now rewrite !count_eq_cons, IH, (Qeq_bool_compat x g g' Hg).
Qed.

Lemma count_eq_none (g : Q) (l : list Q) :
  (forall t, In t l -> ~ t == g) -> count_eq g l = 0%nat.
Proof.
  induction l as [|x l IH]; intros H; [reflexivity|].
  rewrite count_eq_cons, IH by (intros t Ht; apply H; now right).
  destruct (Qeq_bool x g) eqn:E; [|reflexivity].
  apply Qeq_bool_iff in E. exfalso. apply (H x); [now left | exact E].
Qed.

Lemma count_eq_some (g : Q) (l : list Q) :
  (0 < count_eq g l)%nat -> exists t, In t l /\ t == g.
Proof.
  unfold count_eq. intros H.
  destruct (filter (fun t => Qeq_bool t g) l) as [|t rest] eqn:E;
    [simpl in H; lia|].
  assert (Hin : In t (filter (fun t => Qeq_bool t g) l))
    by (rewrite E; now left).
  apply filter_In in Hin. destruct Hin as [Hin Heq].
  exists t. split; [assumption | now apply Qeq_bool_iff].
Qed.

(** If the squares add up to the square of the sum, one entry is the
    whole sum. *)
Lemma sq_sum_eq_one_holder (l : list Q) :
  nonneg l -> 0 < Qsum l -> Qsum (map sq l) == sq (Qsum l) ->
  count_eq (Qsum l) l = 1%nat.
Proof.
  induction 1 as [|x l Hx Hl IH]; simpl Qsum; intros Hpos Heq.
  - lra.
  - pose proof (nonneg_sum l Hl) as Hs.
    pose proof (sum_sq_le_sq_sum l Hl) as Hle.
    pose proof (Qmult_le_0_compat _ _ Hx Hs) as Hxs.
    unfold sq in Heq, Hle, IH.
    assert (Hprod : x * Qsum l == 0) by nra.
    assert (Hsq : Qsum (map sq l) == Qsum l * Qsum l)
      by (unfold sq; nra).
    rewrite count_eq_cons.
    destruct (Qeq_dec x 0) as [Hx0|Hx0].
    + assert (E : Qeq_bool x (x + Qsum l) = false).
      { apply Qeq_bool_false. lra. }
      rewrite E. simpl.
      rewrite (count_eq_compat (x + Qsum l) (Qsum l)) by lra.
      apply IH; [lra | exact Hsq].
    + apply Qmult_integral in Hprod. destruct Hprod as [?|Hs0]; [tauto|].
      assert (E : Qeq_bool x (x + Qsum l) = true).
      { apply Qeq_bool_iff. lra. }
      rewrite E, count_eq_none; [reflexivity|].
      intros t Ht Heq'.
      pose proof (nonneg_zero_sum l Hl Hs0 t Ht). lra.
Qed.

Lemma holder_sq_sum_eq (l : list Q) (t : Q) :
  nonneg l -> In t l -> t == Qsum l -> Qsum (map sq l) == sq (Qsum l).
Proof.
  induction 1 as [|x l Hx Hl IH]; simpl; [contradiction|].
  pose proof (nonneg_sum l Hl) as Hs. intros [->|Hin] Heq.
  - assert (Hs0 : Qsum l == 0) by lra.
    rewrite Qsum_map_zero.
    + unfold sq. rewrite Hs0. ring.
    + intros y Hy. unfold sq.
      rewrite (nonneg_zero_sum l Hl Hs0 y Hy). ring.
  - pose proof (nonneg_le_sum l t Hl Hin).
    assert (Hx0 : x == 0) by lra.
    rewrite IH by (assumption || lra).
    unfold sq. rewrite Hx0. ring.
Qed.

(** For non-negative numbers with a positive sum: the squares add up to
    the square of the sum exactly when one entry, and only one, is the
    whole sum. *)
Lemma sq_sum_eq_iff_one_holder (l : list Q) :
  nonneg l -> 0 < Qsum l ->
  (Qsum (map sq l) == sq (Qsum l) <-> count_eq (Qsum l) l = 1%nat).
Proof.
  intros Hl Hpos. split.
  - now apply sq_sum_eq_one_holder.
  - intros Hc. destruct (count_eq_some (Qsum l) l) as [t [Hin Ht]]; [lia|].
    now apply (holder_sq_sum_eq l t).
Qed.

End FullShare.

(** ** The index on a view with a positive total *)

Lemma fold_left_Qplus (l : list Q) (a : Q) :
  fold_left Qplus l a == a + Qsum l.
Proof.
  revert a. induction l as [|x l IH]; intros a; simpl; [ring|].
  rewrite IH. ring.
Qed.

Lemma fsum_finite_from (l : list Q) (a : Q) :
  fold_left fadd (filter (fun x => negb (is_nan x)) (map Fin l)) (Fin a)
  = Fin (fold_left Qplus l a).
Proof.
  revert a. induction l as [|x l IH]; intros a; simpl; [reflexivity|].
  apply IH.
Qed.

Lemma fsum_finite (l : list Q) : fsum (map Fin l) = Fin (fold_left Qplus l 0).
Proof. apply fsum_finite_from. Qed.

(** The share of a total [t] when the grand total is [g]. *)
Lemma share_value (t g : Q) :
  ~ g == 0 -> fmul (fdiv t g) 100 = Fin (t / g * 100).
Proof.
  intros Hg. unfold fdiv. now rewrite (Qeq_bool_false g 0 Hg).
Qed.

Lemma hhi_value (view : dataframe) :
  ~ Qsum (map snd (supplier_spend view)) == 0 ->
  hhi view
  = Fin (fold_left Qplus
           (map (fun e => (snd e / Qsum (map snd (supplier_spend view)) * 100) ^ 2)
                (supplier_spend view))
           0).
Proof.
  intros Hg. unfold hhi, market_shares. cbv zeta.
  rewrite map_map. simpl snd.
  rewrite (map_ext _
             (fun e => Fin ((snd e / Qsum (map snd (supplier_spend view)) * 100) ^ 2))).
  - rewrite <- (map_map _ Fin). apply fsum_finite.
  - intros e. now rewrite share_value.
Qed.

Lemma shares_sq_sum (g : Q) (l : list Q) :
  ~ g == 0 ->
  Qsum (map (fun t => (t / g * 100) ^ 2) l)
  == 10000 * Qsum (map sq l) / (g * g).
Proof.
  intros Hg. induction l as [|t l IH]; simpl Qsum.
  - field. exact Hg.
  - rewrite IH. unfold sq. change ((t / g * 100) ^ 2)
      with ((t / g * 100) * (t / g * 100)).
    field. exact Hg.
Qed.

Lemma full_share_test (t g : Q) :
  ~ g == 0 -> Qeq_bool (t / g * 100) 100 = Qeq_bool t g.
Proof.
  intros Hg. destruct (Qeq_bool t g) eqn:E.
  - apply Qeq_bool_iff in E. apply Qeq_bool_iff. rewrite E. field. exact Hg.
  - apply Qeq_bool_neq in E. apply Qeq_bool_false. intros H. apply E.
    setoid_replace t with (t / g * 100 * (g / 100)) by (field; exact Hg).
    rewrite H. field.
Qed.

Lemma full_share_count_value (view : dataframe) :
  ~ Qsum (map snd (supplier_spend view)) == 0 ->
  full_share_count view
  = count_eq (Qsum (map snd (supplier_spend view)))
             (map snd (supplier_spend view)).
Proof.
  intros Hg. unfold full_share_count, market_shares, count_eq. cbv zeta.
  generalize (Qsum (map snd (supplier_spend view))) Hg. intros g Hg'.
  clear Hg.
  induction (supplier_spend view) as [|e s IH]; simpl; [reflexivity|].
  rewrite (share_value _ g Hg'). simpl holds_all.
  rewrite (full_share_test _ g Hg').
  destruct (Qeq_bool (snd e) g); simpl; now rewrite IH.
Qed.

(** Bounds of [10000 * q / g^2] from bounds of [q]. *)
Lemma scaled_ratio_bounds (g q n : Q) :
  0 < g -> 0 < n -> q <= g * g -> g * g <= n * q ->
  10000 / n <= 10000 * q / (g * g)
  /\ 10000 * q / (g * g) <= 10000
  /\ (10000 * q / (g * g) == 10000 <-> q == g * g).
Proof.
  intros Hg Hn Hq1 Hq2.
  assert (Hgg : 0 < g * g) by nra.
  split; [|split].
  - apply Qle_shift_div_l; [assumption|].
    setoid_replace (10000 / n * (g * g)) with (10000 * (g * g) / n)
      by (field; lra).
    apply Qle_shift_div_r; [assumption|]. lra.
  - apply Qle_shift_div_r; [assumption|]. lra.
  - split; intros H.
    + setoid_replace q with (10000 * q / (g * g) * (g * g) / 10000)
        by (field; lra).
      rewrite H. field.
    + rewrite H. field. lra.
Qed.

Lemma supplier_totals_nonneg (view : dataframe) :
  Forall (fun r => 0 <= value r) view ->
  nonneg (map snd (supplier_spend view)).
Proof.
  intros Hv. unfold supplier_spend, groupby1, groupby_sum, nonneg.
  rewrite map_map. simpl. apply Forall_forall. intros t Ht.
  apply in_map_iff in Ht. destruct Ht as [k [<- _]].
  apply Qsum_map_nonneg. intros r Hr.
  unfold group_rows in Hr. apply filter_In in Hr.
  rewrite Forall_forall in Hv. now apply Hv.
Qed.

Lemma supplier_count (view : dataframe) :
  List.length (map snd (supplier_spend view)) = nunique supplier view.
Proof.
  rewrite length_map. unfold supplier_spend, groupby1, nunique.
  apply groupby_sum_length.
Qed.

(** In exact arithmetic: on a view of non-negative values whose total is
    positive, the index is a number [score], the sum of the squared
    supplier shares in percent, with [10000 / N <= score <= 10000] for
    the [N] distinct suppliers of the view; and [score] is 10000 exactly
    when one supplier, and only one, has a share of 100 percent. *)
Lemma hhi_bounds :
  forall view : dataframe,
    Forall (fun r => 0 <= value r) view ->
    0 < total_spend view ->
    exists score,
      hhi view = Fin score
      /\ score == Qsum (map (fun e => (100 * snd e / total_spend view) ^ 2)
                            (supplier_spend view))
      /\ 10000 / Qnat (nunique supplier view) <= score
      /\ score <= 10000
      /\ (score == 10000 <-> full_share_count view = 1%nat).
Proof.
  intros view Hv Hpos.
  pose proof (groupby1_total supplier view) as Hg.
  fold (supplier_spend view) in Hg.
  assert (Hg0 : ~ Qsum (map snd (supplier_spend view)) == 0) by lra.
  pose proof (supplier_totals_nonneg view Hv) as Hnn.
  assert (Hlen : (0 < List.length (map snd (supplier_spend view)))%nat).
  { destruct (map snd (supplier_spend view)); simpl in *; [lra | lia]. }
  destruct (scaled_ratio_bounds
              (Qsum (map snd (supplier_spend view)))
              (Qsum (map sq (map snd (supplier_spend view))))
              (Qnat (nunique supplier view)))
    as [Hlow [Hup Hiff]].
  - lra.
  - rewrite <- supplier_count. now apply Qnat_pos.
  - now apply sum_sq_le_sq_sum.
  - rewrite <- supplier_count. apply sq_sum_le_n_sum_sq.
  - eexists. split; [apply (hhi_value view Hg0)|].
    rewrite fold_left_Qplus, Qplus_0_l.
    assert (Hscore :
      Qsum (map (fun e => (snd e / Qsum (map snd (supplier_spend view)) * 100) ^ 2)
                (supplier_spend view))
      == 10000 * Qsum (map sq (map snd (supplier_spend view)))
         / (Qsum (map snd (supplier_spend view))
            * Qsum (map snd (supplier_spend view)))).
    { rewrite <- (shares_sq_sum _ _ Hg0). now rewrite map_map. }
    split; [|rewrite Hscore; split; [exact Hlow | split; [exact Hup|]]].
    + apply Qsum_map_ext. intros e _.
      change ((snd e / Qsum (map snd (supplier_spend view)) * 100) ^ 2)
        with ((snd e / Qsum (map snd (supplier_spend view)) * 100)
              * (snd e / Qsum (map snd (supplier_spend view)) * 100)).
      change ((100 * snd e / total_spend view) ^ 2)
        with ((100 * snd e / total_spend view)
              * (100 * snd e / total_spend view)).
      rewrite Hg. field. lra.
    + rewrite Hiff, (full_share_count_value view Hg0).
      now apply sq_sum_eq_iff_one_holder; [|lra].
Qed.

(** The bounds on the data set of spec example 5. *)
Lemma hhi_bounds_example :
  exists score,
    hhi example_frame = Fin score
    /\ score == Qsum (map (fun e => (100 * snd e / total_spend example_frame) ^ 2)
                          (supplier_spend example_frame))
    /\ 10000 / Qnat (nunique supplier example_frame) <= score
    /\ score <= 10000
    /\ (score == 10000 <-> full_share_count example_frame = 1%nat).
Proof.
  apply (hhi_bounds example_frame).
  - repeat constructor; unfold Qle; simpl; lia.
  - reflexivity.
Defined.

(** Spec example 5: supplier totals 150 and 300, an index of about
    5555.6, highly concentrated. *)
Example hhi_example_frame :
  supplier_spend example_frame = [("S1"%string, 150); ("S2"%string, 300)]
  /\ (exists score, hhi example_frame = Fin score /\ score == 50000 # 9)
  /\ hhi_interpretation (hhi example_frame) = HighlyConcentrated.
Proof.
  split; [reflexivity|]. split; [|reflexivity].
  eexists. split; reflexivity.
Qed.


Lemma tolerance_range : 0 <= tolerance /\ tolerance <= 1.
Proof. split; unfold tolerance, Qle; simpl; lia. Qed.



(** ** CSV export *)

Section CsvRoundTrip.

Lemma append_assoc (s1 s2 s3 : string) :
  ((s1 ++ s2) ++ s3 = s1 ++ (s2 ++ s3))%string.
Proof.
  induction s1 as [|c s1 IH]; simpl; [reflexivity | now rewrite IH].
Qed.

Lemma append_nil_r (s : string) : (s ++ EmptyString = s)%string.
Proof.
  induction s as [|c s IH]; simpl; [reflexivity | now rewrite IH].
Qed.

Lemma not_special (c : ascii) :
  is_special c = false ->
  Ascii.eqb c comma = false /\ Ascii.eqb c dquote = false
  /\ Ascii.eqb c LF = false.
Proof.
  unfold is_special. rewrite !orb_false_iff. tauto.
Qed.

(** An unquoted field is read up to its separator. *)
Lemma read_plain_field (s fld : string) (row : list string)
    (rows : list (list string)) (d : ascii) (rest : string) :
  d = comma \/ d = LF ->
  needs_quote s = false ->
  read_rows InField fld row rows (s ++ String d rest)
  = after_sep d (fld ++ s) row rows rest.
Proof.
  intros Hd. revert fld. induction s as [|c s IH]; intros fld Hs; simpl.
  - rewrite append_nil_r. unfold after_sep.
    destruct Hd as [->| ->]; reflexivity.
  - simpl in Hs. apply orb_false_iff in Hs. destruct Hs as [Hc Hs].
    apply not_special in Hc. destruct Hc as [Hc1 [_ Hc3]].
    rewrite Hc1, Hc3, IH by assumption.
    unfold snoc_char. now rewrite append_assoc.
Qed.

(** A quoted field is read up to the quote that ends it. *)
Lemma read_quoted_field (s fld : string) (row : list string)
    (rows : list (list string)) (d : ascii) (rest : string) :
  d = comma \/ d = LF ->
  read_rows InQuoted fld row rows
    (escape_quotes s ++ String dquote (String d rest))
  = after_sep d (fld ++ s) row rows rest.
Proof.
  intros Hd. revert fld. induction s as [|c s IH]; intros fld; simpl.
  - rewrite append_nil_r. unfold after_sep.
    destruct Hd as [->| ->]; reflexivity.
  - destruct (Ascii.eqb c dquote) eqn:E; simpl.
    + apply Ascii.eqb_eq in E. subst c.
      rewrite IH. unfold snoc_char. now rewrite append_assoc.
    + rewrite E, IH. unfold snoc_char. now rewrite append_assoc.
Qed.

Lemma read_field (f : string) (row : list string)
    (rows : list (list string)) (d : ascii) (rest : string) :
  d = comma \/ d = LF ->
  read_rows FieldStart EmptyString row rows (csv_field f ++ String d rest)
  = after_sep d f row rows rest.
Proof.
  intros Hd. unfold csv_field. destruct (needs_quote f) eqn:E.
  - simpl. rewrite append_assoc. simpl.
    now rewrite read_quoted_field.
  - destruct f as [|c f]; simpl.
    + unfold after_sep. destruct Hd as [->| ->]; reflexivity.
    + simpl in E. apply orb_false_iff in E. destruct E as [Hc Hf].
      apply not_special in Hc. destruct Hc as [Hc1 [Hc2 Hc3]].
      rewrite Hc1, Hc2, Hc3. now rewrite read_plain_field.
Qed.

Lemma read_fields (fields row : list string) (rows : list (list string))
    (rest : string) :
  fields <> [] ->
  read_rows FieldStart EmptyString row rows (csv_fields fields ++ rest)
  = read_rows FieldStart EmptyString [] (rows ++ [row ++ fields]) rest.
Proof.
  revert row. induction fields as [|f fs IH]; intros row Hne; [congruence|].
  destruct fs as [|f2 fs].
  - simpl csv_fields. rewrite append_assoc. simpl append.
    rewrite read_field by now right. reflexivity.
  - change (csv_fields (f :: f2 :: fs))
      with (csv_field f ++ String comma (csv_fields (f2 :: fs)))%string.
    rewrite append_assoc. simpl append.
    rewrite read_field by now left. unfold after_sep. simpl Ascii.eqb.
    rewrite IH by discriminate.
    now rewrite <- app_assoc.
Qed.

Lemma read_row (fields row : list string) (rows : list (list string))
    (rest : string) :
  fields <> [] ->
  read_rows FieldStart EmptyString row rows (csv_row fields ++ rest)
  = read_rows FieldStart EmptyString [] (rows ++ [row ++ fields]) rest.
Proof.
  intros Hne. destruct fields as [|f [|f2 fs]]; [congruence| |].
  - destruct f as [|c f]; [reflexivity|].
    now apply read_fields.
  - now apply read_fields.
Qed.

Lemma read_text (rs rows : list (list string)) :
  Forall (fun r => r <> []) rs ->
  read_rows FieldStart EmptyString [] rows (csv_text rs) = Some (rows ++ rs).
Proof.
  intros H. revert rows. induction H as [|r rs Hr Hrs IH]; intros rows; simpl.
  - now rewrite app_nil_r.
  - rewrite read_row by assumption. simpl. rewrite IH.
    now rewrite <- app_assoc.
Qed.

(** Reading the text written for rows of at least one field gives the
    rows back. *)
Lemma parse_csv_text (rs : list (list string)) :
  Forall (fun r => r <> []) rs -> parse_csv (csv_text rs) = Some rs.
Proof. intros H. unfold parse_csv. now rewrite read_text. Qed.

Variable repr : Q -> string.
Variable parse_float : string -> option Q.

Lemma parse_to_csv (view : dataframe) :
  parse_csv (to_csv repr view)
  = Some (columns :: map (record_fields repr) view).
Proof.
  unfold to_csv. apply parse_csv_text. constructor; [discriminate|].
  apply Forall_forall. intros row Hrow. apply in_map_iff in Hrow.
  destruct Hrow as [r [<- _]]. discriminate.
Qed.

Lemma rows_to_records_fields (view : dataframe) :
  Forall (fun r => parse_float (repr (value r)) = Some (value r)) view ->
  rows_to_records parse_float (map (record_fields repr) view) = Some view.
Proof.
  induction 1 as [|r view Hr Hview IH]; simpl; [reflexivity|].
  rewrite Hr, IH. now destruct r.
Qed.

Lemma read_to_csv (view : dataframe) :
  Forall (fun r => parse_float (repr (value r)) = Some (value r)) view ->
  read_csv parse_float (to_csv repr view) = Some view.
Proof.
  intros H. unfold read_csv. rewrite parse_to_csv.
  destruct (list_eq_dec string_dec columns columns) as [_|Hne];
    [|congruence].
  now apply rows_to_records_fields.
Qed.

End CsvRoundTrip.

(** C9. The export read back gives the records of the view again, hence
    the same grand total and the same category, area and supplier sums,
    whenever the reader turns the text written for each value back into
    that value. *)
Theorem csv_round_trip_preserves_totals :
  forall (repr : Q -> string) (parse_float : string -> option Q)
         (view : dataframe),
    Forall (fun r => parse_float (repr (value r)) = Some (value r)) view ->
    exists parsed,
      read_csv parse_float (to_csv repr view) = Some parsed
      /\ total_spend parsed == total_spend view
      /\ category_spend parsed = category_spend view
      /\ area_spend parsed = area_spend view
      /\ supplier_spend parsed = supplier_spend view.
Proof.
  intros repr parse_float view H. exists view.
  split; [now apply read_to_csv|].
  repeat split; reflexivity.
Qed.

(** The round trip on the data set of spec example 5, written and read
    as whole pounds. *)
Lemma csv_round_trip_example :
  exists parsed,
    read_csv parse_int64 (to_csv repr_int64 example_frame) = Some parsed
    /\ total_spend parsed == total_spend example_frame
    /\ category_spend parsed = category_spend example_frame
    /\ area_spend parsed = area_spend example_frame
    /\ supplier_spend parsed = supplier_spend example_frame.
Proof.
  apply (csv_round_trip_preserves_totals repr_int64 parse_int64 example_frame).
  repeat constructor.
Defined.

(** C8, as stated, fails: the export of a frame whose smaller invoice
    comes first holds the rows in that order, which is not descending by
    value; only the table shown on the page is sorted, and its text
    would be another one. *)
Lemma export_keeps_frame_order :
  to_csv repr_int64 ascending_frame
  = (header_text
     ++ "Fuel,Navy,Acme,1" ++ String LF
          ("Fuel,Navy,Brill,2" ++ String LF EmptyString))%string
  /\ descending (map value ascending_frame) = false
  /\ descending (map value (transaction_details ascending_frame)) = true
  /\ to_csv repr_int64 (transaction_details ascending_frame)
     <> to_csv repr_int64 ascending_frame.
Proof.
  split; [reflexivity|]. split; [reflexivity|]. split; [reflexivity|].
  vm_compute. discriminate.
Qed.

(** C8, amended. The export is the header line of the four column names
    followed by one row per record of the view, in the order of the
    view; in each row the three labels are written as CSV fields and the
    value, when its text has no delimiter, quote or line break, is
    written as that text, without quotes. *)
Theorem to_csv_rows_in_frame_order :
  forall (repr : Q -> string) (view : dataframe),
    Forall (fun r => needs_quote (repr (value r)) = false) view ->
    to_csv repr view
    = (header_text ++ csv_text (map (record_fields repr) view))%string
    /\ List.length (map (record_fields repr) view) = List.length view
    /\ Forall (fun r =>
                 csv_row (record_fields repr r)
                 = (csv_field (category r) ++ String comma
                      (csv_field (area r) ++ String comma
                         (csv_field (supplier r) ++ String comma
                            (repr (value r) ++ String LF EmptyString))))%string)
              view.
Proof.
  intros repr view H.
  split; [reflexivity|]. split; [apply length_map|].
  eapply Forall_impl; [|exact H].
  intros r Hr. cbn [csv_row csv_fields record_fields].
  unfold csv_field at 4. now rewrite Hr.
Qed.

(** The export of the data set of spec example 5. *)
Lemma to_csv_example :
  to_csv repr_int64 example_frame
  = (header_text
     ++ csv_text (map (record_fields repr_int64) example_frame))%string
  /\ List.length (map (record_fields repr_int64) example_frame)
     = List.length example_frame
  /\ Forall (fun r =>
               csv_row (record_fields repr_int64 r)
               = (csv_field (category r) ++ String comma
                    (csv_field (area r) ++ String comma
                       (csv_field (supplier r) ++ String comma
                          (repr_int64 (value r)
                           ++ String LF EmptyString))))%string)
            example_frame.
Proof.
  apply (to_csv_rows_in_frame_order repr_int64 example_frame).
  repeat constructor.
Defined.

(** * Further properties *)

(** ** The filter applied twice *)

Lemma filter_swap {A : Type} (f g : A -> bool) (l : list A) :
  filter g (filter f l) = filter f (filter g l).
Proof.
  rewrite <- !filter_andb. apply filter_ext. intros x. apply andb_comm.
Qed.

Lemma filter_absorb {A : Type} (f g : A -> bool) (l : list A) :
  (forall x, g x = true -> f x = true) ->
  filter g (filter f l) = filter g l.
Proof.
  intros H. rewrite <- filter_andb. apply filter_ext. intros x.
  destruct (g x) eqn:E; [|apply andb_false_r].
  now rewrite (H x E).
Qed.

Lemma isin_incl (s : string) (l1 l2 : list string) :
  (forall x, In x l1 -> In x l2) -> isin s l1 = true -> isin s l2 = true.
Proof. rewrite !isin_In. auto. Qed.

(** X1. Two filters in a row give the same view in either order; the
    same filter twice changes nothing; and a narrower selection applied
    to an already filtered view gives what it gives on the data set. *)
Theorem filtered_df_twice :
  forall (df : dataframe) (c1 a1 c2 a2 : list string),
    filtered_df (filtered_df df c1 a1) c2 a2
    = filtered_df (filtered_df df c2 a2) c1 a1
    /\ filtered_df (filtered_df df c1 a1) c1 a1 = filtered_df df c1 a1
    /\ ((forall c, In c c2 -> In c c1) ->
        (forall a, In a a2 -> In a a1) ->
        filtered_df (filtered_df df c1 a1) c2 a2 = filtered_df df c2 a2).
Proof.
  intros df c1 a1 c2 a2. unfold filtered_df.
  split; [apply filter_swap|]. split.
  - apply filter_absorb. auto.
  - intros Hc Ha. apply filter_absorb. intros r Hr.
    apply andb_true_iff in Hr. destruct Hr as [H1 H2].
    apply andb_true_iff. split; eapply isin_incl; eauto.
Qed.

(** ** Which labels reach the charts *)

Lemma sort_values_keys_In (asc : bool) (k : string) (s : series string) :
  In k (map fst (sort_values snd asc s)) <-> In k (map fst s).
Proof.
  split; apply Permutation_in; [|symmetry];
    apply Permutation_map, sort_values_perm.
Qed.

Lemma groupby1_keys_In (key : record -> string) (k : string)
    (view : dataframe) :
  In k (map fst (groupby1 key view)) <-> exists r, In r view /\ key r = k.
Proof.
  unfold groupby1. rewrite groupby_sum_keys.
  apply group_keys_In, String.eqb_eq.
Qed.

(** X2. A category has a bar in the category chart exactly when it is
    selected and some record of the data set has it together with a
    selected area; likewise an area in the treemap; and a supplier is
    counted exactly when one of its records has a selected category and a
    selected area. *)
Theorem chart_labels_come_from_the_selection :
  forall (df : dataframe) (cats areas : list string) (k : string),
    (In k (map fst (category_spend (filtered_df df cats areas)))
     <-> In k cats
         /\ exists r, In r df /\ category r = k /\ In (area r) areas)
    /\ (In k (map fst (area_spend (filtered_df df cats areas)))
        <-> In k areas
            /\ exists r, In r df /\ area r = k /\ In (category r) cats)
    /\ (In k (map fst (supplier_spend (filtered_df df cats areas)))
        <-> exists r, In r df /\ supplier r = k
                      /\ In (category r) cats /\ In (area r) areas).
Proof.
  intros df cats areas k.
  unfold category_spend, area_spend, supplier_spend.
  rewrite !sort_values_keys_In, !groupby1_keys_In.
  split; [|split].
  - split.
    + intros [r [Hr Hk]]. apply filtered_df_selected in Hr.
      destruct Hr as [Hr [Hc Ha]]. subst k. split; [assumption|].
      exists r. tauto.
    + intros [Hk [r [Hr [Hc Ha]]]]. exists r. split; [|assumption].
      apply filtered_df_selected. unfold selected. subst k. tauto.
  - split.
    + intros [r [Hr Hk]]. apply filtered_df_selected in Hr.
      destruct Hr as [Hr [Hc Ha]]. subst k. split; [assumption|].
      exists r. tauto.
    + intros [Hk [r [Hr [Ha Hc]]]]. exists r. split; [|assumption].
      apply filtered_df_selected. unfold selected. subst k. tauto.
  - split.
    + intros [r [Hr Hk]]. apply filtered_df_selected in Hr.
      destruct Hr as [Hr [Hc Ha]]. exists r. tauto.
    + intros [r [Hr [Hk [Hc Ha]]]]. exists r. split; [|assumption].
      apply filtered_df_selected. unfold selected. tauto.
Qed.

(** ** The line under the filters *)

Lemma Qnat_le (n m : nat) : (n <= m)%nat -> Qnat n <= Qnat m.
Proof. unfold Qnat. rewrite <- Zle_Qle. lia. Qed.

(** X3. When the filtered view has rows, the percentage of records shown
    under the filters is computed without a division by zero and lies
    above 0 and at most at 100. *)
Theorem loaded_percent_in_range :
  forall (df : dataframe) (cats areas : list string),
    filtered_df df cats areas <> [] ->
    exists p,
      loaded_percent df (filtered_df df cats areas) = Some p
      /\ 0 < p /\ p <= 100.
Proof.
  intros df cats areas Hne. unfold loaded_percent.
  assert (Hle : (List.length (filtered_df df cats areas)
                 <= List.length df)%nat) by apply filter_length_le.
  assert (Hpos : (0 < List.length (filtered_df df cats areas))%nat).
  { destruct (filtered_df df cats areas); [congruence | simpl; lia]. }
  destruct (Nat.eqb (List.length df) 0) eqn:E.
  - apply Nat.eqb_eq in E. lia.
  - eexists. split; [reflexivity|].
    pose proof (Qnat_pos _ Hpos) as H1.
    pose proof (Qnat_le _ _ Hle) as H2.
    assert (H3 : 0 < Qnat (List.length df)) by lra.
    split.
    + apply Qmult_lt_0_compat; [|lra].
      apply Qlt_shift_div_l; [assumption | lra].
    + setoid_replace 100 with (1 * 100) at 2 by ring.
      apply Qmult_le_compat_r; [|lra].
      apply Qle_shift_div_r; [assumption | lra].
Qed.

Lemma loaded_percent_example :
  exists p,
    loaded_percent example_frame
      (filtered_df example_frame ["CatA"%string] ["AreaX"%string]) = Some p
    /\ 0 < p /\ p <= 100.
Proof.
  apply (loaded_percent_in_range example_frame).
  simpl. discriminate.
Defined.

(** ** Top supplier share *)

Lemma series_max_spec (l : list Q) (m : Q) :
  series_max l = Some m -> In m l /\ forall x, In x l -> x <= m.
Proof.
  revert m. induction l as [|x l IH]; simpl; intros m H; [discriminate|].
  destruct (series_max l) as [m'|] eqn:E.
  - destruct (IH m' eq_refl) as [Hin Hmax].
    destruct (Qle_bool m' x) eqn:Ele; inversion H; subst m.
    + apply Qle_bool_iff in Ele. split; [now left|].
      intros y [->|Hy]; [apply Qle_refl|].
      specialize (Hmax y Hy). lra.
    + split; [now right|].
      intros y [->|Hy]; [|now apply Hmax].
      apply Qlt_le_weak, Qnot_le_lt. intros Hc.
      apply Qle_bool_iff in Hc. congruence.
  - inversion H; subst m. destruct l as [|y l]; [|simpl in E].
    + split; [now left|]. intros y [->|[]]. apply Qle_refl.
    + destruct (series_max l); discriminate.
Qed.

Lemma series_max_some (l : list Q) :
  l <> [] -> exists m, series_max l = Some m.
Proof.
  destruct l as [|x l]; [congruence|]. intros _. simpl.
  destruct (series_max l); eexists; reflexivity.
Qed.

(** X5. On a view with a positive total the top supplier share is a
    number: it is the share of the total of one of the suppliers of the
    view, and no supplier of the view has a larger share of the total. *)
Theorem top_supplier_share_is_the_largest_share :
  forall view : dataframe,
    0 < total_spend view ->
    exists share,
      kpi_top_supplier_share (kpi_stage view) = Fin share
      /\ (exists k t, In (k, t) (supplier_spend view)
                      /\ share = t / total_spend view * 100)
      /\ forall k t, In (k, t) (supplier_spend view) ->
                     t / total_spend view * 100 <= share.
Proof.
  intros view Hpos.
  pose proof (groupby1_total supplier view) as Hg.
  unfold kpi_stage. cbn [kpi_top_supplier_share]. unfold supplier_spend.
  destruct (series_max_some (map snd (groupby1 supplier view))) as [m Hm].
  { intros E. rewrite E in Hg. simpl in Hg. lra. }
  rewrite Hm. destruct (series_max_spec _ _ Hm) as [Hin Hmax].
  rewrite share_value by lra.
  eexists. split; [reflexivity|]. split.
  - apply in_map_iff in Hin. destruct Hin as [[k t] [E Hin]].
    simpl in E. subst t. now exists k, m.
  - intros k t Hkt.
    assert (Ht : t <= m).
    { apply Hmax. change t with (snd (k, t)). now apply in_map. }
    apply Qmult_le_compat_r; [|lra].
    apply Qmult_le_compat_r; [exact Ht|].
    apply Qinv_le_0_compat. lra.
Qed.

Lemma top_supplier_share_example :
  exists share,
    kpi_top_supplier_share (kpi_stage example_frame) = Fin share
    /\ (exists k t, In (k, t) (supplier_spend example_frame)
                    /\ share = t / total_spend example_frame * 100)
    /\ forall k t, In (k, t) (supplier_spend example_frame) ->
                   t / total_spend example_frame * 100 <= share.
Proof.
  apply (top_supplier_share_is_the_largest_share example_frame).
  reflexivity.
Defined.

(** ** The index on every view *)

Lemma fsquare_cases (x : fval) :
  fsquare x = NaN \/ square_total (fsquare x).
Proof.
  destruct x as [q| | |]; simpl.
  - right. right. exists (q ^ 2). split; [reflexivity|].
    change (q ^ 2) with (q * q). apply Qsq_nonneg.
  - right. now left.
  - right. now left.
  - now left.
Qed.

Lemma fold_squares (l : list fval) (acc : fval) :
  Forall (fun x => x = NaN \/ square_total x) l ->
  square_total acc ->
  square_total (fold_left fadd (filter (fun x => negb (is_nan x)) l) acc).
Proof.
  intros H. revert acc. induction H as [|x l Hx Hl IH]; intros acc Hacc;
    simpl; [assumption|].
  destruct Hx as [->|Hx]; simpl; [now apply IH|].
  assert (Hnan : is_nan x = false).
  { destruct Hx as [->|[q [-> _]]]; reflexivity. }
  rewrite Hnan. simpl. apply IH.
  destruct Hacc as [->|[a [-> Ha]]], Hx as [->|[q [-> Hq]]]; simpl.
  - now left.
  - now left.
  - now left.
  - right. exists (a + q). split; [reflexivity | lra].
Qed.

(** X7. Whatever the view, the index is never NaN and never negative: it
    is a non-negative number or plus infinity. *)
Theorem hhi_is_never_nan :
  forall view : dataframe,
    hhi view = PInf \/ exists q, hhi view = Fin q /\ 0 <= q.
Proof.
  intros view. unfold hhi, fsum. apply fold_squares.
  - apply Forall_forall. intros x Hx. apply in_map_iff in Hx.
    destruct Hx as [e [<- _]]. apply fsquare_cases.
  - right. exists 0. split; [reflexivity | apply Qle_refl].
Qed.

(** ** Views whose total is zero *)

Lemma fsum_all_nan (l : list fval) :
  Forall (fun x => x = NaN) l -> fsum l = Fin 0.
Proof.
  unfold fsum. induction 1 as [|x l Hx Hl IH]; simpl; [reflexivity|].
  subst x. simpl. exact IH.
Qed.

Lemma zero_share (t g : Q) :
  t == 0 -> g == 0 -> fmul (fdiv t g) 100 = NaN.
Proof.
  intros Ht Hg. unfold fdiv.
  assert (E1 : Qeq_bool g 0 = true) by now apply Qeq_bool_iff.
  assert (E2 : Qeq_bool t 0 = true) by now apply Qeq_bool_iff.
  now rewrite E1, E2.
Qed.

Lemma market_shares_all_nan (view : dataframe) :
  Forall (fun r => 0 <= value r) view ->
  total_spend view == 0 ->
  Forall (fun e => snd e = NaN) (market_shares view).
Proof.
  intros Hv Hz.
  pose proof (groupby1_total supplier view) as Hg.
  fold (supplier_spend view) in Hg.
  pose proof (supplier_totals_nonneg view Hv) as Hnn.
  assert (Hg0 : Qsum (map snd (supplier_spend view)) == 0) by lra.
  unfold market_shares. cbv zeta.
  apply Forall_forall. intros e He. apply in_map_iff in He.
  destruct He as [[k t] [<- Hin]]. simpl.
  apply zero_share; [|assumption].
  apply (nonneg_zero_sum _ Hnn Hg0).
  change t with (snd (k, t)). now apply in_map.
Qed.

(** X6. On a view that has rows, no negative value and a total of zero,
    nothing stops the run: the top supplier share is NaN, every market
    share is NaN and is skipped by the sums, so that the index is 0, the
    status shown is competitive and the share of the five largest
    suppliers is 0. *)
Theorem zero_total_view_metrics :
  forall view : dataframe,
    view <> [] ->
    Forall (fun r => 0 <= value r) view ->
    total_spend view == 0 ->
    kpi_top_supplier_share (kpi_stage view) = NaN
    /\ hhi view = Fin 0
    /\ conc_status (concentration_stage view) = Competitive
    /\ top_5_share view = Fin 0.
Proof.
  intros view Hne Hv Hz.
  pose proof (market_shares_all_nan view Hv Hz) as Hnan.
  assert (Hhhi : hhi view = Fin 0).
  { unfold hhi. apply fsum_all_nan. apply Forall_forall. intros x Hx.
    apply in_map_iff in Hx. destruct Hx as [e [<- He]].
    rewrite Forall_forall in Hnan. now rewrite (Hnan e He). }
  split; [|split; [exact Hhhi | split]].
  - unfold kpi_stage. cbn [kpi_top_supplier_share].
    pose proof (supplier_totals_nonneg view Hv) as Hnn.
    pose proof (groupby1_total supplier view) as Hg.
    unfold supplier_spend in Hnn.
    destruct (series_max_some (map snd (groupby1 supplier view)))
      as [m Hm].
    { intros E. apply (f_equal (@List.length Q)) in E.
      pose proof (supplier_count view) as Hc. unfold supplier_spend in Hc.
      rewrite Hc in E. unfold nunique in E.
      destruct view as [|r view]; [congruence | discriminate]. }
    rewrite Hm. destruct (series_max_spec _ _ Hm) as [Hin _].
    apply zero_share; [|assumption].
    apply (nonneg_zero_sum _ Hnn); [lra | assumption].
  - unfold concentration_stage. cbn [conc_status]. now rewrite Hhhi.
  - unfold top_5_share. apply fsum_all_nan.
    apply Forall_forall. intros x Hx. apply in_map_iff in Hx.
    destruct Hx as [e [<- He]].
    unfold nlargest_shares in He.
    apply (In_nth_error) in He. destruct He as [i He].
    assert (Hin : In e
      (fold_right insert_share []
         (filter (fun e => negb (is_nan (snd e))) (market_shares view))
       ++ filter (fun e => is_nan (snd e)) (market_shares view))).
    { apply nth_error_In in He.
      rewrite <- (firstn_skipn 5
        (fold_right insert_share []
           (filter (fun e => negb (is_nan (snd e))) (market_shares view))
         ++ filter (fun e => is_nan (snd e)) (market_shares view))).
      apply in_or_app. now left. }
    rewrite (filter_none (fun e => negb (is_nan (snd e)))) in Hin.
    + simpl in Hin. apply filter_In in Hin. destruct Hin as [Hin _].
      rewrite Forall_forall in Hnan. now apply Hnan.
    + intros y Hy. rewrite Forall_forall in Hnan.
      now rewrite (Hnan y Hy).
Qed.

Lemma zero_total_view_example :
  kpi_top_supplier_share (kpi_stage zero_invoice_frame) = NaN
  /\ hhi zero_invoice_frame = Fin 0
  /\ conc_status (concentration_stage zero_invoice_frame) = Competitive
  /\ top_5_share zero_invoice_frame = Fin 0.
Proof.
  apply (zero_total_view_metrics zero_invoice_frame).
  - discriminate.
  - repeat constructor. unfold Qle; simpl; lia.
  - reflexivity.
Defined.

(** X8. For every score other than 2500 the status shown is the band the
    page documents. *)
Theorem status_is_documented_band_off_2500 :
  forall score : Q,
    ~ score == 2500 ->
    hhi_interpretation (Fin score) = documented_band score.
Proof. exact hhi_interpretation_documented. Qed.

Lemma status_is_documented_band_example :
  hhi_interpretation (Fin 1500) = documented_band 1500.
Proof.
  apply (status_is_documented_band_off_2500 1500).
  intros H. discriminate H.
Defined.

(** ** Share of the five largest suppliers *)

Section FiniteShares.

Variable f : string * Q -> Q.

Lemma insert_share_finite (x : string * Q) (l : series string) :
  insert_share (fst x, Fin (f x))
    (map (fun e => (fst e, Fin (f e))) l)
  = map (fun e => (fst e, Fin (f e))) (insert_value f false x l).
Proof.
  induction l as [|y l IH]; simpl; [reflexivity|].
  unfold goes_before.
  destruct (Qlt_bool (f x) (f y)); simpl; [now rewrite IH | reflexivity].
Qed.

Lemma sort_shares_finite (l : series string) :
  fold_right insert_share [] (map (fun e => (fst e, Fin (f e))) l)
  = map (fun e => (fst e, Fin (f e))) (sort_values f false l).
Proof.
  induction l as [|x l IH]; simpl; [reflexivity|].
  rewrite IH. apply insert_share_finite.
Qed.

Lemma nlargest_shares_finite (n : nat) (l : series string) :
  nlargest_shares n (map (fun e => (fst e, Fin (f e))) l) = map (fun e => (fst e, Fin (f e))) (nlargest f n l).
Proof.
  unfold nlargest_shares, nlargest.
  rewrite filter_all_true, filter_none.
  - rewrite app_nil_r, sort_shares_finite. apply firstn_map.
  - intros e He. apply in_map_iff in He. now destruct He as [y [<- _]].
  - intros e He. apply in_map_iff in He. now destruct He as [y [<- _]].
Qed.

Lemma fsum_nlargest_shares_finite (n : nat) (l : series string) :
  fsum (map snd (nlargest_shares n (map (fun e => (fst e, Fin (f e))) l)))
  = Fin (fold_left Qplus (map f (nlargest f n l)) 0).
Proof.
  rewrite nlargest_shares_finite, map_map. simpl.
  rewrite <- (map_map f Fin). apply fsum_finite.
Qed.

End FiniteShares.

(** X9. On a view of non-negative values with a positive total the share
    of the five largest suppliers is a number, it is not negative, and no
    single supplier has a larger market share. *)
Theorem top_5_share_covers_each_share :
  forall view : dataframe,
    Forall (fun r => 0 <= value r) view ->
    0 < total_spend view ->
    exists share,
      top_5_share view = Fin share
      /\ 0 <= share
      /\ forall k t,
           In (k, t) (supplier_spend view) ->
           t / Qsum (map snd (supplier_spend view)) * 100 <= share.
Proof.
  intros view Hv Hpos.
  pose proof (groupby1_total supplier view) as Hg.
  fold (supplier_spend view) in Hg.
  pose proof (supplier_totals_nonneg view Hv) as Hnn.
  set (g := Qsum (map snd (supplier_spend view))) in *.
  assert (Hg0 : ~ g == 0) by lra.
  set (f := fun e : string * Q => snd e / g * 100).
  assert (Hshares : market_shares view
                    = map (fun e => (fst e, Fin (f e))) (supplier_spend view)).
  { unfold market_shares. cbv zeta. apply map_ext. intros e.
    fold g. now rewrite share_value. }
  assert (Hf : forall e, In e (supplier_spend view) -> 0 <= f e).
  { intros e He. unfold f.
    assert (0 <= snd e).
    { unfold nonneg in Hnn. rewrite Forall_forall in Hnn.
      apply Hnn. now apply in_map. }
    apply Qmult_le_0_compat; [|lra].
    apply Qle_shift_div_l; lra. }
  destruct (nlargest_keeps_largest _ f 5 (supplier_spend view))
    as [rest [Hperm Hrest]].
  assert (Hnn_top : nonneg (map f (nlargest f 5 (supplier_spend view)))).
  { apply Forall_forall. intros y Hy. apply in_map_iff in Hy.
    destruct Hy as [e [<- He]]. apply Hf.
    apply (Permutation_in _ (Permutation_sym Hperm)).
    apply in_or_app. now left. }
  unfold top_5_share. rewrite Hshares.
  rewrite (fsum_nlargest_shares_finite f).
  pose proof (fold_left_Qplus
                (map f (nlargest f 5 (supplier_spend view))) 0) as Hs.
  rewrite Qplus_0_l in Hs.
  eexists. split; [reflexivity|].
  split; [rewrite Hs; now apply nonneg_sum|].
  intros k t Hkt. rewrite Hs. change (t / g * 100) with (f (k, t)).
  apply (Permutation_in _ Hperm) in Hkt. apply in_app_or in Hkt.
  destruct Hkt as [Hin|Hin].
  - apply (nonneg_le_sum _ _ Hnn_top). now apply in_map.
  - destruct (nlargest f 5 (supplier_spend view)) as [|x top] eqn:Etop.
    + exfalso.
      pose proof (nlargest_length _ f 5 (supplier_spend view)) as Hl.
      rewrite Etop in Hl. cbn [List.length] in Hl.
      apply Permutation_length in Hperm. cbn [app] in Hperm.
      destruct rest; [contradiction|]. cbn [List.length] in Hperm. lia.
    + assert (f (k, t) <= f x) by (apply Hrest; [now left | assumption]).
      assert (f x <= Qsum (map f (x :: top)))
        by (apply (nonneg_le_sum _ _ Hnn_top); now left).
      lra.
Qed.

Lemma top_5_share_example :
  exists share,
    top_5_share example_frame = Fin share
    /\ 0 <= share
    /\ forall k t,
         In (k, t) (supplier_spend example_frame) ->
         t / Qsum (map snd (supplier_spend example_frame)) * 100 <= share.
Proof.
  apply (top_5_share_covers_each_share example_frame).
  - repeat constructor; unfold Qle; simpl; lia.
  - reflexivity.
Defined.

(** ** Data of the pie chart *)


(** ** Orders of the charts and of the table *)

Section Orders.

Variable A : Type.
Variable val : A -> Q.

Lemma insert_value_ascending (x : A) (l : list A) :
  StronglySorted (fun a b => val a <= val b) l ->
  StronglySorted (fun a b => val a <= val b) (insert_value val true x l).
Proof.
  induction 1 as [|y l Hl IH Hy]; simpl.
  - repeat constructor.
  - unfold goes_before. destruct (Qlt_bool (val y) (val x)) eqn:E.
    + apply Qlt_bool_iff in E. constructor; [assumption|].
      apply Forall_forall. intros z Hz.
      apply insert_value_In in Hz. destruct Hz as [->|Hz].
      * lra.
      * rewrite Forall_forall in Hy. now apply Hy.
    + apply Qlt_bool_false_iff in E.
      constructor; [now constructor|].
      constructor; [exact E|].
      rewrite Forall_forall in Hy |- *. intros z Hz.
      specialize (Hy z Hz). simpl in Hy. lra.
Qed.

Lemma sort_values_ascending (l : list A) :
  StronglySorted (fun a b => val a <= val b) (sort_values val true l).
Proof.
  induction l as [|x l IH]; simpl; [constructor|].
  now apply insert_value_ascending.
Qed.

Lemma descending_sorted (l : list A) :
  StronglySorted (not_below val) l -> descending (map val l) = true.
Proof.
  induction 1 as [|x l Hl IH Hx]; [reflexivity|].
  destruct l as [|y l]; [reflexivity|].
  change (Qle_bool (val y) (val x) && descending (map val (y :: l)) = true).
  rewrite IH, andb_true_r. apply Qle_bool_iff.
  inversion Hx; assumption.
Qed.

End Orders.

(** X11. The table of transactions shows the rows of the view, each as
    often as the view has it, with values that never go up from one row
    to the next. *)
Theorem transaction_details_is_sorted_view :
  forall view : dataframe,
    Permutation (transaction_details view) view
    /\ descending (map value (transaction_details view)) = true.
Proof.
  intros view. unfold transaction_details.
  split; [apply sort_values_perm|].
  apply descending_sorted, sort_values_descending.
Qed.

Lemma groupby1_keys_NoDup (key : record -> string) (view : dataframe) :
  NoDup (map fst (groupby1 key view)).
Proof.
  unfold groupby1. rewrite groupby_sum_keys.
  apply group_keys_NoDup, String.eqb_eq.
Qed.

Lemma groupby1_length (key : record -> string) (view : dataframe) :
  List.length (groupby1 key view) = nunique key view.
Proof. apply groupby_sum_length. Qed.

(** X12. The category chart has one bar per distinct category of the
    view, no category twice, with totals that never go down from one bar
    to the next. *)
Theorem category_spend_is_ascending :
  forall view : dataframe,
    NoDup (map fst (category_spend view))
    /\ List.length (category_spend view) = nunique category view
    /\ StronglySorted (fun a b => snd a <= snd b) (category_spend view).
Proof.
  intros view. unfold category_spend. split; [|split].
  - eapply Permutation_NoDup; [|apply (groupby1_keys_NoDup category view)].
    symmetry. apply Permutation_map, sort_values_perm.
  - rewrite (Permutation_length (sort_values_perm _ snd true _)).
    apply groupby1_length.
  - apply sort_values_ascending.
Qed.

(** X13. The treemap has one node per distinct area of the view, with
    ids that are all different, every node under the root and labelled
    with its id; the node values add up to the total spend of the view
    and never go up from one node to the next. *)
Theorem treemap_data_nodes :
  forall view : dataframe,
    NoDup (map node_ids (treemap_data view))
    /\ List.length (treemap_data view) = nunique area view
    /\ Forall (fun n => node_parents n = EmptyString
                        /\ node_labels n = node_ids n)
              (treemap_data view)
    /\ Qsum (map node_values (treemap_data view)) == total_spend view
    /\ descending (map node_values (treemap_data view)) = true.
Proof.
  intros view. unfold treemap_data.
  split; [|split; [|split; [|split]]].
  - rewrite map_map. simpl. unfold area_spend.
    eapply Permutation_NoDup; [|apply (groupby1_keys_NoDup area view)].
    symmetry. apply Permutation_map, sort_values_perm.
  - rewrite length_map. unfold area_spend.
    rewrite (Permutation_length (sort_values_perm _ snd false _)).
    apply groupby1_length.
  - apply Forall_forall. intros n Hn. apply in_map_iff in Hn.
    destruct Hn as [e [<- _]]. split; reflexivity.
  - rewrite map_map. simpl. unfold area_spend.
    rewrite sort_values_total. apply groupby1_total.
  - rewrite map_map. simpl. unfold area_spend.
    apply descending_sorted, sort_values_descending.
Qed.

(** ** Top-N mode of the filters *)

Lemma NoDup_firstn {A : Type} (n : nat) (l : list A) :
  NoDup l -> NoDup (firstn n l).
Proof.
  intros H. rewrite <- (firstn_skipn n l) in H.
  now apply NoDup_app_remove_r in H.
Qed.

(** In a series whose labels are all different a label has one value. *)
Lemma series_value_unique (s : series string) (k : string) (t t' : Q) :
  NoDup (map fst s) -> In (k, t) s -> In (k, t') s -> t = t'.
Proof.
  induction s as [|[k0 t0] s IH]; simpl; intros Hnd H1 H2; [contradiction|].
  inversion Hnd as [|? ? Hnotin Hnd']; subst.
  destruct H1 as [E1|H1], H2 as [E2|H2].
  - congruence.
  - inversion E1; subst. exfalso. apply Hnotin.
    change k with (fst (k, t')). now apply in_map.
  - inversion E2; subst. exfalso. apply Hnotin.
    change k with (fst (k, t)). now apply in_map.
  - now apply IH.
Qed.

Lemma top_labels_length (key : record -> string) (top_n : nat)
    (df : dataframe) :
  List.length (top_labels key top_n df) = Nat.min top_n (nunique key df).
Proof.
  unfold top_labels, topN. rewrite length_map, nlargest_length.
  f_equal. apply groupby1_length.
Qed.

Lemma top_labels_In (key : record -> string) (top_n : nat)
    (df : dataframe) (k : string) :
  In k (top_labels key top_n df) -> exists r, In r df /\ key r = k.
Proof.
  unfold top_labels, topN. intros Hk. apply groupby1_keys_In.
  apply in_map_iff in Hk. destruct Hk as [e [<- He]].
  apply in_map. unfold nlargest in He.
  apply (Permutation_in _ (sort_values_perm _ snd false _)).
  rewrite <- (firstn_skipn top_n (sort_values snd false (groupby1 key df))).
  apply in_or_app. now left.
Qed.

(** X14. For a data set with rows, the labels preselected in top-N mode
    are labels of the data set, all different, as many as the slider asks for or all of them if
    there are fewer; and no label left out has a larger total than a
    label that is selected. *)
Theorem top_labels_are_the_largest :
  forall (key : record -> string) (top_n : nat) (df : dataframe),
    df <> [] ->
    NoDup (top_labels key top_n df)
    /\ List.length (top_labels key top_n df)
       = Nat.min top_n (nunique key df)
    /\ (forall k, In k (top_labels key top_n df) ->
                  exists r, In r df /\ key r = k)
    /\ (forall k t k' t',
          In (k, t) (groupby1 key df) -> In k (top_labels key top_n df) ->
          In (k', t') (groupby1 key df) ->
          ~ In k' (top_labels key top_n df) ->
          t' <= t).
Proof.
  intros key top_n df _. unfold top_labels, topN.
  pose proof (groupby1_keys_NoDup key df) as Hnd.
  assert (Hsorted : NoDup (map fst (sort_values snd false (groupby1 key df)))).
  { eapply Permutation_NoDup; [|exact Hnd].
    symmetry. apply Permutation_map, sort_values_perm. }
  destruct (nlargest_keeps_largest _ snd top_n (groupby1 key df))
    as [rest [Hperm Hrest]].
  split; [|split; [|split]].
  - unfold nlargest. rewrite <- firstn_map. now apply NoDup_firstn.
  - apply top_labels_length.
  - apply top_labels_In.
  - intros k t k' t' Hkt Hk Hkt' Hk'.
    assert (Hin : In (k, t) (nlargest snd top_n (groupby1 key df))).
    { apply in_map_iff in Hk. destruct Hk as [[k0 t0] [E He]].
      simpl in E. subst k0.
      assert (He' : In (k, t0) (groupby1 key df)).
      { apply (Permutation_in _ (Permutation_sym Hperm)).
        apply in_or_app. now left. }
      now rewrite (series_value_unique _ k t t0 Hnd Hkt He'). }
    assert (Hout : In (k', t') rest).
    { apply (Permutation_in _ Hperm) in Hkt'. apply in_app_or in Hkt'.
      destruct Hkt' as [Hc|Hc]; [|assumption].
      exfalso. apply Hk'. change k' with (fst (k', t')). now apply in_map. }
    apply (Hrest (k, t) (k', t') Hin Hout).
Qed.

Lemma top_labels_example :
  NoDup (top_labels category 5 example_frame)
  /\ List.length (top_labels category 5 example_frame)
     = Nat.min 5 (nunique category example_frame)
  /\ (forall k, In k (top_labels category 5 example_frame) ->
                exists r, In r example_frame /\ category r = k)
  /\ (forall k t k' t',
        In (k, t) (groupby1 category example_frame) ->
        In k (top_labels category 5 example_frame) ->
        In (k', t') (groupby1 category example_frame) ->
        ~ In k' (top_labels category 5 example_frame) ->
        t' <= t).
Proof.
  apply (top_labels_are_the_largest category 5 example_frame).
  discriminate.
Defined.

Lemma unique_nonempty (l : list string) :
  l <> [] -> unique String.eqb l <> [].
Proof. destruct l; [congruence | discriminate]. Qed.

(** X15. With a data set that has rows and a slider value of at least 1
    (the sliders start at 5), the top categories together with every
    area, and the top areas together with every category, never end in
    the no-data state. *)
Theorem top_mode_with_select_all_has_data :
  forall (top_n : nat) (df : dataframe),
    df <> [] ->
    (1 <= top_n)%nat ->
    dashboard df (top_categories top_n df) (all_areas df) <> NoData
    /\ dashboard df (all_categories df) (top_areas top_n df) <> NoData.
Proof.
  intros top_n df Hne Hn.
  assert (Hpick : forall key,
            exists r, In r df /\ In (key r) (top_labels key top_n df)).
  { intros key.
    pose proof (top_labels_length key top_n df) as Hlen.
    pose proof (top_labels_In key top_n df) as Hin.
    destruct (top_labels key top_n df) as [|k l] eqn:E.
    - exfalso. simpl in Hlen. unfold nunique in Hlen.
      assert (unique String.eqb (map key df) <> []).
      { apply unique_nonempty. destruct df; [congruence | discriminate]. }
      destruct (unique String.eqb (map key df)); [congruence|].
      simpl in Hlen. lia.
    - destruct (Hin k (or_introl eq_refl)) as [r [Hr Hk]].
      exists r. split; [assumption|]. rewrite Hk. now left. }
  split; intros Hc; apply dashboard_no_data_iff in Hc.
  - destruct (Hpick category) as [r [Hr Hk]].
    assert (Hin : In r (filtered_df df (top_categories top_n df)
                          (all_areas df))).
    { apply filtered_df_selected. split; [assumption|]. split.
      - exact Hk.
      - apply (unique_In string String.eqb String.eqb_eq).
        now apply in_map. }
    rewrite Hc in Hin. contradiction.
  - destruct (Hpick area) as [r [Hr Hk]].
    assert (Hin : In r (filtered_df df (all_categories df)
                          (top_areas top_n df))).
    { apply filtered_df_selected. split; [assumption|]. split.
      - apply (unique_In string String.eqb String.eqb_eq).
        now apply in_map.
      - exact Hk. }
    rewrite Hc in Hin. contradiction.
Qed.

Lemma top_mode_with_select_all_example :
  dashboard example_frame (top_categories 5 example_frame)
    (all_areas example_frame) <> NoData
  /\ dashboard example_frame (all_categories example_frame)
       (top_areas 5 example_frame) <> NoData.
Proof.
  apply (top_mode_with_select_all_has_data 5 example_frame).
  - discriminate.
  - apply le_S, le_S, le_S, le_S, le_n.
Defined.

(** ** Search mode of the filters *)

Lemma starts_with_spec (p s : string) :
  starts_with p s = true <-> exists post, s = (p ++ post)%string.
Proof.
  revert s. induction p as [|a p IH]; intros s; simpl.
  - split; [intros _; now exists s | reflexivity].
  - destruct s as [|b s].
    + split; [discriminate | intros [post H]; discriminate].
    + rewrite andb_true_iff, Ascii.eqb_eq, IH. split.
      * intros [-> [post ->]]. now exists post.
      * intros [post H]. inversion H. split; [reflexivity | now exists post].
Qed.

Lemma contains_unfold (sub s : string) :
  contains sub s
  = starts_with sub s
    || match s with
       | EmptyString => false
       | String _ s' => contains sub s'
       end.
Proof. destruct s; reflexivity. Qed.

(** [contains sub s] holds exactly when [sub] occurs in [s]. *)
Lemma contains_spec (sub s : string) :
  contains sub s = true
  <-> exists pre post, s = (pre ++ sub ++ post)%string.
Proof.
  split.
  - induction s as [|c s IH]; rewrite contains_unfold, orb_true_iff.
    + intros [H|H]; [|discriminate].
      apply starts_with_spec in H. destruct H as [post H].
      now exists EmptyString, post.
    + intros [H|H].
      * apply starts_with_spec in H. destruct H as [post H].
        now exists EmptyString, post.
      * destruct (IH H) as [pre [post ->]].
        now exists (String c pre), post.
  - intros [pre [post ->]]. induction pre as [|c pre IH].
    + rewrite contains_unfold. apply orb_true_iff. left.
      apply starts_with_spec. now exists post.
    + simpl append. rewrite contains_unfold, IH. apply orb_true_r.
Qed.

Lemma lower_ascii_idempotent (c : ascii) :
  lower_ascii (lower_ascii c) = lower_ascii c.
Proof.
  destruct c as [[] [] [] [] [] [] [] []]; reflexivity.
Qed.

Lemma lower_idempotent (s : string) : lower (lower s) = lower s.
Proof.
  induction s as [|c s IH]; simpl; [reflexivity|].
  now rewrite lower_ascii_idempotent, IH.
Qed.

Lemma lower_is_empty (s : string) : is_empty (lower s) = is_empty s.
Proof. now destruct s. Qed.

Lemma search_labels_In (search label : string) (available : list string) :
  In label (search_labels search available)
  <-> In label available
      /\ exists pre post, lower label = (pre ++ lower search ++ post)%string.
Proof.
  unfold search_labels. destruct search as [|c search]; simpl is_empty; cbv iota.
  - split; [|tauto]. intros H. split; [assumption|].
    now exists EmptyString, (lower label).
  - now rewrite filter_In, contains_spec.
Qed.

(** X16. The labels offered after a search are, in their order, the
    labels whose text holds the search text when case is ignored; this
    also describes the empty search box, which offers every label; and
    the case of the search text makes no difference. *)
Theorem search_labels_match_ignoring_case :
  forall (search : string) (available : list string),
    subsequence (search_labels search available) available
    /\ (forall label,
          In label (search_labels search available)
          <-> In label available
              /\ exists pre post,
                   lower label = (pre ++ lower search ++ post)%string)
    /\ search_labels EmptyString available = available
    /\ search_labels (lower search) available
       = search_labels search available.
Proof.
  intros search available.
  split; [|split; [|split]].
  - unfold search_labels. destruct (is_empty search).
    + clear. induction available; now constructor.
    + apply filter_subsequence.
  - intros label. apply search_labels_In.
  - reflexivity.
  - unfold search_labels. now rewrite lower_is_empty, lower_idempotent.
Qed.

Lemma default_selection_In (label : string) (available : list string) :
  In label (default_selection available) -> In label available.
Proof.
  unfold default_selection. intros H.
  destruct (Nat.leb (List.length available) 5).
  - rewrite <- (firstn_skipn 5 available). apply in_or_app. now left.
  - rewrite <- (firstn_skipn 3 available). apply in_or_app. now left.
Qed.

(** X17. After a search the preselected categories are the first labels
    offered: all of them when at most five are offered, the first three
    otherwise, so never more than five and none only when nothing is
    offered.  Left as preselected, the filter then keeps only records
    whose category holds the search text, case ignored. *)
Theorem search_default_selection :
  forall (search_cat : string) (df : dataframe) (areas : list string),
    (List.length (default_selection (available_cats search_cat df))
     = if Nat.leb (List.length (available_cats search_cat df)) 5
       then List.length (available_cats search_cat df)
       else 3%nat)
    /\ (List.length (default_selection (available_cats search_cat df))
        <= 5)%nat
    /\ (available_cats search_cat df <> [] ->
        default_selection (available_cats search_cat df) <> [])
    /\ (forall r,
          In r (filtered_df df
                  (default_selection (available_cats search_cat df)) areas) ->
          exists pre post,
            lower (category r) = (pre ++ lower search_cat ++ post)%string).
Proof.
  intros search_cat df areas.
  split; [|split; [|split]].
  - unfold default_selection.
    destruct (Nat.leb (List.length (available_cats search_cat df)) 5) eqn:E.
    + apply Nat.leb_le in E. now rewrite firstn_all2.
    + apply Nat.leb_gt in E. rewrite length_firstn. lia.
  - unfold default_selection.
    destruct (Nat.leb (List.length (available_cats search_cat df)) 5);
      rewrite length_firstn; lia.
  - unfold default_selection.
    destruct (available_cats search_cat df) as [|x l]; [congruence|].
    intros _. destruct (Nat.leb (List.length (x :: l)) 5); discriminate.
  - intros r Hr. apply filtered_df_selected in Hr.
    destruct Hr as [_ [Hc _]]. apply default_selection_In in Hc.
    unfold available_cats in Hc. apply search_labels_In in Hc.
    tauto.
Qed.

(** ** Duplicate rows *)

Lemma duplicated_from_count (seen : list record) (view : dataframe) :
  (List.length (filter (fun b => b) (duplicated_from seen view))
   + List.length (filter (unseen seen) (unique record_eqb view))
   = List.length view)%nat.
Proof.
  revert seen. induction view as [|r view IH]; intros seen; [reflexivity|].
  cbn [duplicated_from unique filter List.length].
  specialize (IH (r :: seen)).
  assert (Hrest :
    filter (unseen seen)
      (filter (fun y => negb (record_eqb r y)) (unique record_eqb view))
    = filter (unseen (r :: seen)) (unique record_eqb view)).
  { rewrite <- filter_andb. apply filter_ext. intros y.
    unfold unseen. simpl. now rewrite negb_orb. }
  unfold unseen at 1.
  destruct (existsb (fun s => record_eqb s r) seen); simpl;
    rewrite Hrest; lia.
Qed.

(** X18. The number of duplicate records and the number of different
    rows of the view add up to the number of rows; the first row is never
    a duplicate, so that a view with rows has fewer duplicates than
    rows. *)
Theorem duplicate_records_count :
  forall view : dataframe,
    (duplicate_records view + List.length (unique record_eqb view)
     = List.length view)%nat
    /\ (view <> [] -> (duplicate_records view < List.length view)%nat).
Proof.
  intros view.
  pose proof (duplicated_from_count [] view) as H.
  assert (Hall : filter (unseen []) (unique record_eqb view)
                 = unique record_eqb view).
  { apply filter_all_true. reflexivity. }
  rewrite Hall in H. fold (duplicated view) in H.
  fold (duplicate_records view) in H.
  split; [exact H|].
  intros Hne. destruct view as [|r view]; [congruence|].
  simpl unique in H. simpl List.length in H. simpl List.length. lia.
Qed.

(** ** Counts and totals against the data set *)

Lemma unique_length_le {K : Type} (Keqb : K -> K -> bool) (l : list K) :
  (List.length (unique Keqb l) <= List.length l)%nat.
Proof.
  induction l as [|x l IH]; simpl; [lia|].
  pose proof (filter_length_le (fun y => negb (Keqb x y)) (unique Keqb l)).
  lia.
Qed.

(** X20. The number of unique suppliers shown is the number of suppliers
    the concentration figures are computed over; it is at most the
    number of rows of the view, and at least 1 when the view has rows. *)
Theorem unique_suppliers_count :
  forall view : dataframe,
    kpi_unique_suppliers (kpi_stage view) = List.length (supplier_spend view)
    /\ List.length (market_shares view) = List.length (supplier_spend view)
    /\ (kpi_unique_suppliers (kpi_stage view) <= List.length view)%nat
    /\ (view <> [] -> (1 <= kpi_unique_suppliers (kpi_stage view))%nat).
Proof.
  intros view. unfold kpi_stage. cbn [kpi_unique_suppliers].
  split; [symmetry; apply groupby1_length|].
  split; [unfold market_shares; cbv zeta; apply length_map|].
  split.
  - unfold nunique.
    pose proof (unique_length_le String.eqb (map supplier view)) as H.
    now rewrite length_map in H.
  - intros Hne. unfold nunique.
    destruct view as [|r view]; [congruence|]. simpl. lia.
Qed.

Lemma filter_total_le (f : record -> bool) (view : dataframe) :
  Forall (fun r => 0 <= value r) view ->
  total_spend (filter f view) <= total_spend view.
Proof.
  unfold total_spend. induction 1 as [|r view Hr Hview IH]; simpl.
  - apply Qle_refl.
  - destruct (f r); simpl; lra.
Qed.

(** X21. Widening the selection only adds rows: the view of a selection
    is a subsequence of the view of any selection that contains it, and
    when no value of the data set is negative its total spend is not
    larger, in particular not larger than the total of the data set. *)
Theorem filtered_df_is_monotone :
  forall (df : dataframe) (cats areas cats' areas' : list string),
    (forall c, In c cats -> In c cats') ->
    (forall a, In a areas -> In a areas') ->
    subsequence (filtered_df df cats areas) (filtered_df df cats' areas')
    /\ (Forall (fun r => 0 <= value r) df ->
        total_spend (filtered_df df cats areas)
        <= total_spend (filtered_df df cats' areas')
        /\ total_spend (filtered_df df cats' areas') <= total_spend df).
Proof.
  intros df cats areas cats' areas' Hc Ha.
  assert (Hnarrow : filtered_df (filtered_df df cats' areas') cats areas
                    = filtered_df df cats areas).
  { unfold filtered_df. apply filter_absorb. intros r Hr.
    apply andb_true_iff in Hr. destruct Hr as [H1 H2].
    apply andb_true_iff. split; eapply isin_incl; eauto. }
  split.
  - rewrite <- Hnarrow. apply filter_subsequence.
  - intros Hv. split.
    + rewrite <- Hnarrow. apply filter_total_le.
      apply Forall_forall. intros r Hr. apply filter_In in Hr.
      rewrite Forall_forall in Hv. now apply Hv.
    + now apply filter_total_le.
Qed.

Lemma filtered_df_is_monotone_example :
  subsequence
    (filtered_df example_frame ["CatA"%string] ["AreaX"%string])
    (filtered_df example_frame ["CatA"%string; "CatB"%string]
       ["AreaX"%string])
  /\ (Forall (fun r => 0 <= value r) example_frame ->
      total_spend (filtered_df example_frame ["CatA"%string] ["AreaX"%string])
      <= total_spend
           (filtered_df example_frame ["CatA"%string; "CatB"%string]
              ["AreaX"%string])
      /\ total_spend
           (filtered_df example_frame ["CatA"%string; "CatB"%string]
              ["AreaX"%string])
         <= total_spend example_frame).
Proof.
  apply (filtered_df_is_monotone example_frame).
  - intros c [<-|[]]. now left.
  - intros a H. exact H.
Defined.

(** ** Heatmap rows against the category totals *)

(** X22. Each row of the heatmap adds up to the total of its category,
    which is the bar of that category in the category chart. *)
Theorem heatmap_rows_add_up_to_category_totals :
  forall (view : dataframe) (i : nat) (c : string),
    nth_error (pivot_index (heatmap_data view)) i = Some c ->
    exists row,
      nth_error (pivot_values (heatmap_data view)) i = Some row
      /\ Qsum row == total_spend (group_rows String.eqb category c view)
      /\ In (c, total_spend (group_rows String.eqb category c view))
            (category_spend view).
Proof.
  intros view i c Hi. unfold heatmap_data in *.
  rewrite pivot_values_eq, nth_error_map, Hi. cbn [option_map].
  eexists. split; [reflexivity|]. split.
  - rewrite <- (group_totals_sum _ String.eqb String.eqb_eq area
                  (pivot_columns (pivot_table category area 0 view))
                  (group_rows String.eqb category c view)).
    + apply Qsum_map_ext. intros a _.
      now rewrite pair_group_rows.
    + apply pivot_columns_NoDup.
    + intros r Hr. apply pivot_columns_In. exists r. split; [|reflexivity].
      unfold group_rows in Hr. apply filter_In in Hr. tauto.
  - unfold category_spend.
    apply (Permutation_in _ (Permutation_sym (sort_values_perm _ snd true _))).
    unfold groupby1, groupby_sum.
    apply (in_map (fun k => (k, total_spend
                                  (group_rows String.eqb category k view)))).
    apply (group_keys_In _ String.eqb String.eqb_eq).
    apply nth_error_In in Hi. apply pivot_rows_In in Hi. exact Hi.
Qed.

Lemma heatmap_rows_example :
  exists row,
    nth_error (pivot_values (heatmap_data example_frame)) 0 = Some row
    /\ Qsum row
       == total_spend (group_rows String.eqb category "CatA"%string example_frame)
    /\ In ("CatA"%string,
           total_spend (group_rows String.eqb category "CatA"%string example_frame))
          (category_spend example_frame).
Proof.
  apply (heatmap_rows_add_up_to_category_totals example_frame 0 "CatA"%string).
  reflexivity.
Defined.

(** ** Order of the group labels *)

Lemma insert_label_sorted (k : string) (l : list string) :
  Sorted (fun a b => String.leb a b = true) l ->
  Sorted (fun a b => String.leb a b = true) (insert_label String.leb k l).
Proof.
  induction 1 as [|y l Hl IH Hy]; simpl.
  - repeat constructor.
  - destruct (String.leb k y) eqn:E.
    + constructor; [now constructor|]. now constructor.
    + assert (Hyk : String.leb y k = true).
      { destruct (String.leb_total k y); congruence. }
      constructor; [assumption|].
      destruct l as [|z l]; simpl.
      * now constructor.
      * destruct (String.leb k z); constructor; [assumption|].
        now inversion Hy.
Qed.

Lemma sort_labels_sorted (l : list string) :
  Sorted (fun a b => String.leb a b = true) (sort_labels String.leb l).
Proof.
  induction l as [|x l IH]; simpl; [constructor|].
  now apply insert_label_sorted.
Qed.

(** X23. The grouped sums list their labels in ascending order, each
    label once: so do the suppliers the concentration figures run over
    and the rows and columns of the heatmap. *)
Theorem group_labels_are_sorted :
  forall (key : record -> string) (view : dataframe),
    Sorted (fun a b => String.leb a b = true) (map fst (groupby1 key view))
    /\ NoDup (map fst (groupby1 key view))
    /\ Sorted (fun a b => String.leb a b = true)
              (pivot_index (heatmap_data view))
    /\ Sorted (fun a b => String.leb a b = true)
              (pivot_columns (heatmap_data view)).
Proof.
  intros key view.
  split; [|split; [apply groupby1_keys_NoDup|split]].
  - unfold groupby1. rewrite groupby_sum_keys. apply sort_labels_sorted.
  - apply sort_labels_sorted.
  - apply sort_labels_sorted.
Qed.
